(** * MediaRec: the handle registry and status dispatcher of the media plugin

    A shallow embedding of [www/browser/MediaRec.js] (the standalone proxy
    that drives an HTML [Audio] element) and of [www/MediaRec.js] (the proxy
    that forwards every operation to the native executor through
    [cordova/exec]), together with the properties of the registry-keyed
    dispatch they implement.

    JavaScript objects are references: a handle lives in a heap and the
    registry [mediaObjects] maps an identifier to the heap location of the
    handle.  Everything the proxies do to their surroundings (calling a
    callback, touching the [Audio] element, calling [exec], writing to the
    console) is recorded in a trace, and the surroundings answer through an
    environment that may depend on what happened so far. *)

From Stdlib Require Import QArith.
From stdpp Require Import gmap strings list fin_maps.

Open Scope string_scope.
Open Scope list_scope.
Set Warnings "-register-all".

(** ** JavaScript values *)

(** The values that travel through the proxies.  Numbers are rationals
    (the only arithmetic in the source is [milliseconds / 1000]); [JNaN] is
    the not-a-number value.  [JObj] is a plain object literal such as
    [{ code: 1 }]; [JErr name text operand] is an error object whose message
    is the concatenation [text + operand]. *)
Inductive jsval : Type :=
| JUndefined
| JNull
| JBool (b : bool)
| JNaN
| JNum (q : Q)
| JStr (s : string)
| JObj (props : list (string * jsval))
| JErr (name text : string) (operand : jsval).

(** Function values are identified by a tag; what a function does when it is
    called belongs to the environment. *)
Definition fn := nat.

(** Heap locations of handles. *)
Definition loc := nat.

(** The [TypeError] the engine raises on a property access or a call on
    [undefined]. *)
Definition TypeError (what : string) : jsval := JErr "TypeError" what (JStr "").

(** ToBoolean. *)
Definition truthy (v : jsval) : bool :=
  match v with
  | JUndefined | JNull | JNaN => false
  | JBool b => b
  | JNum q => negb (Qeq_bool q 0)
  | JStr s => negb (String.eqb s "")
  | JObj _ | JErr _ _ _ => true
  end.

(** [v === n] for a number literal [n]. *)
Definition strict_eq_num (v : jsval) (n : Q) : bool :=
  match v with
  | JNum q => Qeq_bool q n
  | _ => false
  end.

Section Conversions.

(** StringToNumber of the language, which the source reaches through
    [Number(value)] and through [==]; it is not part of the plugin. *)
Variable str_to_number : string -> jsval.

(** ToNumber, as [Number(value)] computes it. *)
Definition to_number (v : jsval) : jsval :=
  match v with
  | JUndefined => JNaN
  | JNull => JNum 0
  | JBool b => JNum (if b then 1 else 0)
  | JNaN => JNaN
  | JNum q => JNum q
  | JStr s => str_to_number s
  | JObj _ | JErr _ _ _ => JNaN
  end.

(** [v == n] for a number literal [n]: the other operand is converted to a
    number, except [null] and [undefined], which equal only each other. *)
Definition loose_eq_num (v : jsval) (n : Q) : bool :=
  match v with
  | JUndefined | JNull => false
  | _ => strict_eq_num (to_number v) n
  end.

(** [v == 'status']: a number or a boolean is compared with the string
    converted to a number; an object is first converted to its text, which
    reads [[object Object]] or [<name>: <message>] and never [status]. *)
Definition loose_eq_status (v : jsval) : bool :=
  match v with
  | JStr s => String.eqb s "status"
  | JNum q => strict_eq_num (str_to_number "status") q
  | JBool b => strict_eq_num (str_to_number "status") (if b then 1 else 0)
  | JObj _ | JErr _ _ _ => false
  | JUndefined | JNull | JNaN => false
  end.

(** [milliseconds / 1000], as the quotient of the two numbers.  The source
    divides floating-point numbers and rounds the quotient to the nearest
    one: the two agree where the quotient is itself such a number, as it is
    at zero and at every whole number of seconds, and nothing is stated
    about the quotient elsewhere. *)
Definition div1000 (v : jsval) : jsval :=
  match to_number v with
  | JNum q => JNum (Qred (q / 1000))
  | _ => JNaN
  end.

End Conversions.

(** [v.name]: reading a property of [undefined] or [null] raises. *)
Definition get_prop (v : jsval) (name : string) : jsval + jsval :=
  match v with
  | JUndefined | JNull => inr (TypeError name)
  | JObj props =>
      inl (match List.find (fun p => String.eqb (fst p) name) props with
           | Some p => snd p
           | None => JUndefined
           end)
  | _ => inl JUndefined
  end.

(** ** The surroundings: trace and environment *)

(** Operations on an [Audio] element. *)
Inductive node_op : Type :=
| OpSetSrc (v : jsval)
| OpPlay
| OpPause
| OpGetCurrentTime
| OpSetCurrentTime (v : jsval)
| OpSetVolume (v : jsval).

(** The callbacks handed to [exec].  A closure of the proxy is named by the
    method that builds it and carries what it captured. *)
Inductive kont : Type :=
| KNull
| KFn (f : fn)
| KStopWin (me : loc)
| KSeekWin (me : loc)
| KPositionWin (me : loc) (success : option fn)
| KDbWin (me : loc) (success : option fn).

Definition kont_of (cb : option fn) : kont :=
  match cb with
  | Some f => KFn f
  | None => KNull
  end.

Inductive event : Type :=
| EvStatus (id : string) (msgType value : jsval)
    (** [MediaRec.onStatus(id, msgType, value)] was entered *)
| EvCall (f : fn) (args : list jsval)
    (** the function [f] was called with [args] *)
| EvConsoleError (text : string) (operand : jsval)
    (** [console.error(text + operand)] *)
| EvAudioNew (n : nat)
    (** [new Audio()] was evaluated for the [n]-th time *)
| EvNode (n : nat) (op : node_op)
    (** an operation on the [n]-th [Audio] element *)
| EvExec (win fail : kont) (action : string) (args : list jsval)
    (** [exec(win, fail, "MediaRec", action, args)] *)
| EvStoreInherited (name prop : string) (value : jsval)
    (** [media[prop] = value] where [media] is the member [name] that
        [mediaObjects] inherits from [Object.prototype] *).

(** The answer of the surroundings to an operation. *)
Inductive response : Type :=
| Returns (v : jsval)
| Throws (e : jsval).

(** What the proxies do not define themselves.  The answers may depend on
    the trace so far.  A callback is a function of the host application: it
    is taken not to call back into the proxy while it runs and not to write
    to a handle itself, although it could do both through [this]; what the
    development says about a handle after a callback ran is about the
    writes of the proxies and holds for such callbacks. *)
Record Env : Type := mkEnv {
  (** StringToNumber *)
  str_to_number : string -> jsval;
  (** whether [console.error] is there *)
  console_error : bool;
  (** the constants of the global [MediaError] *)
  MEDIA_ERR_ABORTED : Q;
  MEDIA_ERR_SRC_NOT_SUPPORTED : Q;
  (** [cordova.platformId] *)
  platformId : string;
  (** [argscheck.checkArgs(spec, 'MediaRec', arguments)] on the first
      argument; [Some e] when it throws [e].  The three callbacks are
      functions or absent by their type. *)
  checkArgs : string -> jsval -> option jsval;
  (** the [n]-th result of [utils.createUUID()] *)
  createUUID : nat -> string;
  (** [new Audio()]: [Some e] when it throws [e] *)
  Audio_new : list event -> option jsval;
  (** an operation on an [Audio] element *)
  audio : list event -> nat -> node_op -> response;
  (** calling a function value: [Some e] when it throws [e] *)
  call_fn : list event -> fn -> list jsval -> option jsval
}.

(** ** Handles and the world *)

(** A handle.  A property that was never assigned, or was deleted, reads as
    [undefined]: [node] is [None] and [_db] is [JUndefined] then. *)
Record MediaRec : Type := mkMediaRec {
  id : string;
  src : jsval;
  successCallback : option fn;
  errorCallback : option fn;
  statusCallback : option fn;
  _duration : jsval;
  _position : jsval;
  node : option nat;
  _db : jsval
}.

Definition set_duration (v : jsval) (m : MediaRec) : MediaRec :=
  mkMediaRec (id m) (src m) (successCallback m) (errorCallback m)
    (statusCallback m) v (_position m) (node m) (_db m).

Definition set_position (v : jsval) (m : MediaRec) : MediaRec :=
  mkMediaRec (id m) (src m) (successCallback m) (errorCallback m)
    (statusCallback m) (_duration m) v (node m) (_db m).

Definition set_node (n : option nat) (m : MediaRec) : MediaRec :=
  mkMediaRec (id m) (src m) (successCallback m) (errorCallback m)
    (statusCallback m) (_duration m) (_position m) n (_db m).

Definition set_src (v : jsval) (m : MediaRec) : MediaRec :=
  mkMediaRec (id m) v (successCallback m) (errorCallback m)
    (statusCallback m) (_duration m) (_position m) (node m) (_db m).

Definition set_successCallback (f : option fn) (m : MediaRec) : MediaRec :=
  mkMediaRec (id m) (src m) f (errorCallback m)
    (statusCallback m) (_duration m) (_position m) (node m) (_db m).

Definition set_errorCallback (f : option fn) (m : MediaRec) : MediaRec :=
  mkMediaRec (id m) (src m) (successCallback m) f
    (statusCallback m) (_duration m) (_position m) (node m) (_db m).

Definition set_statusCallback (f : option fn) (m : MediaRec) : MediaRec :=
  mkMediaRec (id m) (src m) (successCallback m) (errorCallback m)
    f (_duration m) (_position m) (node m) (_db m).

Definition set_db (v : jsval) (m : MediaRec) : MediaRec :=
  mkMediaRec (id m) (src m) (successCallback m) (errorCallback m)
    (statusCallback m) (_duration m) (_position m) (node m) v.

Record world : Type := mkWorld {
  (** the handles that exist *)
  heap : gmap loc MediaRec;
  (** the own properties of [var mediaObjects = {}] *)
  mediaObjects : gmap string loc;
  trace : list event;
  (** how many handles were allocated, identifiers generated and [Audio]
      elements requested *)
  next_loc : nat;
  uuids : nat;
  nodes : nat
}.

Definition world0 : world := mkWorld ∅ ∅ [] 0 0 0.

(** ** Computations that may throw *)

Inductive outcome (A : Type) : Type :=
| Ret (a : A)
| Throw (e : jsval).
Arguments Ret {A} a.
Arguments Throw {A} e.

Definition M (A : Type) : Type := world -> outcome A * world.

Definition ret {A} (a : A) : M A := fun w => (Ret a, w).

Definition throw {A} (e : jsval) : M A := fun w => (Throw e, w).

Definition bind {A B} (m : M A) (k : A -> M B) : M B :=
  fun w => match m w with
           | (Ret a, w') => k a w'
           | (Throw e, w') => (Throw e, w')
           end.

(** [try { m } catch (err) { h err }] *)
Definition try_catch {A} (m : M A) (h : jsval -> M A) : M A :=
  fun w => match m w with
           | (Ret a, w') => (Ret a, w')
           | (Throw e, w') => h e w'
           end.

Notation "x <- m ;; k" := (bind m (fun x => k))
  (at level 100, m at next level, right associativity).
Notation "m ;; k" := (bind m (fun _ => k))
  (at level 100, right associativity).

Definition get_world : M world := fun w => (Ret w, w).

(** The world after the events [t] were recorded. *)
Definition log (t : list event) (w : world) : world :=
  mkWorld (heap w) (mediaObjects w) (trace w ++ t) (next_loc w) (uuids w) (nodes w).

Definition emit (ev : event) : M unit :=
  fun w => (Ret tt, log [ev] w).

(** Reading and writing the properties of the object at [l]. *)
Definition deref (l : loc) : M MediaRec :=
  fun w => match heap w !! l with
           | Some m => (Ret m, w)
           | None => (Throw (TypeError "this"), w)
           end.

(** The world after the object at [l] became [m]. *)
Definition store (l : loc) (m : MediaRec) (w : world) : world :=
  mkWorld (<[l := m]> (heap w)) (mediaObjects w) (trace w)
    (next_loc w) (uuids w) (nodes w).

Definition update (l : loc) (f : MediaRec -> MediaRec) : M unit :=
  fun w => match heap w !! l with
           | Some m => (Ret tt, store l (f m) w)
           | None => (Throw (TypeError "this"), w)
           end.

(** [this.id = utils.createUUID()] on the object under construction: the
    object gets its location and its first property. *)
Definition alloc_with_id (uuid : string) : M loc :=
  fun w =>
    let l := next_loc w in
    (Ret l, mkWorld (<[l := mkMediaRec uuid JUndefined None None None
                              JUndefined JUndefined None JUndefined]> (heap w))
              (mediaObjects w) (trace w) (S l) (uuids w) (nodes w)).

(** [mediaObjects[id] = this] *)
Definition registry_set (i : string) (this : loc) : M unit :=
  fun w => (Ret tt, mkWorld (heap w) (<[i := this]> (mediaObjects w)) (trace w)
                      (next_loc w) (uuids w) (nodes w)).

(** What [mediaObjects[id]] evaluates to.  [mediaObjects] is a plain
    object, [{}]: besides its own properties, which are the identifiers
    that were registered, it answers to the names of the members it
    inherits from [Object.prototype]. *)
Inductive slot : Type :=
| Handle (l : loc)
    (** an own property: the handle registered under the identifier *)
| Inherited (name : string)
    (** the member of [Object.prototype] of that name, a function or, for
        [__proto__], [Object.prototype] itself: a truthy value that is no
        handle *)
| Absent
    (** [undefined] *).

(** The names of the members of [Object.prototype], as the language
    defines them.  A duration or position event for [__proto__] adds
    [_duration] or [_position] to [Object.prototype] itself, after which
    that name is inherited as well; the lookup below does not follow this,
    and what is stated about an absent identifier is stated for traces
    without such a store ([stored_on_Object_prototype]). *)
Definition Object_prototype : list string :=
  ["constructor"; "hasOwnProperty"; "isPrototypeOf"; "propertyIsEnumerable";
   "toLocaleString"; "toString"; "valueOf"; "__proto__";
   "__defineGetter__"; "__defineSetter__"; "__lookupGetter__"; "__lookupSetter__"].

Definition inherited_name (i : string) : bool :=
  existsb (String.eqb i) Object_prototype.

(** [mediaObjects[id]]: an own property shadows an inherited one. *)
Definition registry_get (i : string) : M slot :=
  fun w => (Ret (match mediaObjects w !! i with
                 | Some l => Handle l
                 | None => if inherited_name i then Inherited i else Absent
                 end), w).

Section Surroundings.

Variable E : Env.

(** [f(args)] for a function value [f]: the call is recorded, and the
    environment says how it ends.  The world is otherwise as before the
    call, which is what [Env] assumes of a callback. *)
Definition call (f : fn) (args : list jsval) : M unit :=
  fun w =>
    let w' := log [EvCall f args] w in
    match call_fn E (trace w) f args with
    | None => (Ret tt, w')
    | Some e => (Throw e, w')
    end.

(** [cb && cb(args)] *)
Definition call_if_present (cb : option fn) (args : list jsval) : M unit :=
  match cb with
  | Some f => call f args
  | None => ret tt
  end.

(** [cb(args)] for a parameter that may be [undefined]. *)
Definition call_param (cb : option fn) (args : list jsval) : M unit :=
  match cb with
  | Some f => call f args
  | None => throw (TypeError "call")
  end.

(** [console.error && console.error(text + operand)] *)
Definition console_error_if_present (text : string) (operand : jsval) : M unit :=
  if console_error E then emit (EvConsoleError text operand) else ret tt.

(** An operation on the element [n]. *)
Definition node_do (n : nat) (op : node_op) : M jsval :=
  fun w =>
    let w' := log [EvNode n op] w in
    match audio E (trace w) n op with
    | Returns v => (Ret v, w')
    | Throws e => (Throw e, w')
    end.

(** [this.node.<op>]: raises when [this.node] is [undefined]. *)
Definition this_node_do (this : loc) (op : node_op) : M jsval :=
  m <- deref this ;;
  match node m with
  | Some n => node_do n op
  | None => throw (TypeError "node")
  end.

(** [argscheck.checkArgs(spec, 'MediaRec', arguments)] *)
Definition check_args (spec : string) (src0 : jsval) : M unit :=
  match checkArgs E spec src0 with
  | None => ret tt
  | Some e => throw e
  end.

(** [utils.createUUID()] *)
Definition create_uuid : M string :=
  fun w => (Ret (createUUID E (uuids w)),
            mkWorld (heap w) (mediaObjects w) (trace w) (next_loc w)
              (S (uuids w)) (nodes w)).

(** [new Audio()] *)
Definition new_Audio : M nat :=
  fun w =>
    let n := nodes w in
    let w' := mkWorld (heap w) (mediaObjects w) (trace w ++ [EvAudioNew n])
                (next_loc w) (uuids w) (S n) in
    match Audio_new E (trace w) with
    | None => (Ret n, w')
    | Some e => (Throw e, w')
    end.

(** [exec(win, fail, "MediaRec", action, args)]: the request is handed to
    the executor, which answers later through [win] or [fail]. *)
Definition exec (win fail : kont) (action : string) (args : list jsval) : M unit :=
  emit (EvExec win fail action args).

End Surroundings.

(** A method of a prototype, by the shape of its parameters. *)
Inductive method : Type :=
| Method0 (body : loc -> M jsval)
| Method1 (body : loc -> jsval -> M jsval)
| MethodCb (body : loc -> option fn -> option fn -> M jsval).

(** [this.name()] and [this.name(v)] through a prototype: a name the
    prototype does not define reads as [undefined], and calling it raises.
    A value in the place of a callback is not callable, like an absent one. *)
Definition invoke0 (prototype : string -> option method) (this : loc)
    (name : string) : M jsval :=
  match prototype name with
  | Some (Method0 body) => body this
  | Some (Method1 body) => body this JUndefined
  | Some (MethodCb body) => body this None None
  | None => throw (TypeError name)
  end.

Definition invoke1 (prototype : string -> option method) (this : loc)
    (name : string) (v : jsval) : M jsval :=
  match prototype name with
  | Some (Method0 body) => body this
  | Some (Method1 body) => body this v
  | Some (MethodCb body) => body this None None
  | None => throw (TypeError name)
  end.

(** The message kinds and the states, the same in both proxies. *)
Definition MEDIA_STATE : Q := 1.
Definition MEDIA_DURATION : Q := 2.
Definition MEDIA_POSITION : Q := 3.
Definition MEDIA_ERROR : Q := 9.

Definition MEDIA_NONE : Q := 0.
Definition MEDIA_STARTING : Q := 1.
Definition MEDIA_RUNNING : Q := 2.
Definition MEDIA_PAUSED : Q := 3.
Definition MEDIA_STOPPED : Q := 4.
Definition MEDIA_MSG : list string :=
  ["None"; "Starting"; "Running"; "Paused"; "Stopped"].

(** ** The standalone proxy, [www/browser/MediaRec.js] *)

Module Browser.
Section Browser.

Variable E : Env.

(** [MediaRec.onStatus].  The call itself is the first event it records. *)
Definition onStatus (i : string) (msgType value : jsval) : M unit :=
  emit (EvStatus i msgType value) ;;
  media <- registry_get i ;;
  match media with
  | Handle media =>
      if strict_eq_num msgType MEDIA_STATE then
        m <- deref media ;;
        call_if_present E (statusCallback m) [value] ;;
        if strict_eq_num value MEDIA_STOPPED then
          m <- deref media ;;
          call_if_present E (successCallback m) []
        else ret tt
      else if strict_eq_num msgType MEDIA_DURATION then
        update media (set_duration value)
      else if strict_eq_num msgType MEDIA_ERROR then
        m <- deref media ;;
        call_if_present E (errorCallback m) [value]
      else if strict_eq_num msgType MEDIA_POSITION then
        update media (set_position (to_number (str_to_number E) value))
      else
        console_error_if_present E "Unhandled MediaRec.onStatus :: " msgType
  | Inherited name =>
      (* the same switch on an inherited member, which has none of the
         three callbacks: the conjunctions stop at [undefined] *)
      if strict_eq_num msgType MEDIA_STATE then ret tt
      else if strict_eq_num msgType MEDIA_DURATION then
        emit (EvStoreInherited name "_duration" value)
      else if strict_eq_num msgType MEDIA_ERROR then ret tt
      else if strict_eq_num msgType MEDIA_POSITION then
        emit (EvStoreInherited name "_position" (to_number (str_to_number E) value))
      else
        console_error_if_present E "Unhandled MediaRec.onStatus :: " msgType
  | Absent =>
      console_error_if_present E
        "Received MediaRec.onStatus callback for unknown media :: " (JStr i)
  end.

(** [MediaRec.onStatus(this.id, msgType, value)] *)
Definition onStatus_this (this : loc) (msgType value : jsval) : M unit :=
  m <- deref this ;;
  onStatus (id m) msgType value.

(** [{ code: MediaError.MEDIA_ERR_ABORTED }] *)
Definition aborted : jsval := JObj [("code", JNum (MEDIA_ERR_ABORTED E))].

(** [createNode]: the element, with its source set when the handle has
    one.  The listeners it attaches are the [node_on...] below. *)
Definition createNode (media : loc) : M nat :=
  n <- new_Audio E ;;
  m <- deref media ;;
  (if truthy (src m) then node_do E n (OpSetSrc (src m)) ;; ret tt else ret tt) ;;
  ret n.

Definition node_onloadstart (media : loc) : M unit :=
  onStatus_this media (JNum MEDIA_STATE) (JNum MEDIA_STARTING).

Definition node_onplaying (media : loc) : M unit :=
  onStatus_this media (JNum MEDIA_STATE) (JNum MEDIA_RUNNING).

(** [e.target.duration || -1] *)
Definition node_ondurationchange (media : loc) (duration : jsval) : M unit :=
  onStatus_this media (JNum MEDIA_DURATION)
    (if truthy duration then duration else JNum (-1)).

(** [node.onerror], with [error] for [e.target.error]. *)
Definition node_onerror (media : loc) (error : jsval) : M unit :=
  match get_prop error "code" with
  | inr e => throw e
  | inl code =>
      let err := if strict_eq_num code (MEDIA_ERR_SRC_NOT_SUPPORTED E)
                 then aborted else error in
      onStatus_this media (JNum MEDIA_ERROR) err
  end.

Definition node_onended (media : loc) : M unit :=
  onStatus_this media (JNum MEDIA_STATE) (JNum MEDIA_STOPPED).

(** [try { this.node = createNode(this); } catch (err) { ... }] *)
Definition try_createNode (this : loc) : M unit :=
  try_catch
    (n <- createNode this ;; update this (set_node (Some n)))
    (fun _ => onStatus_this this (JNum MEDIA_ERROR) aborted).

(** The constructor. *)
Definition new_MediaRec (src0 : jsval)
    (successCallback0 errorCallback0 statusCallback0 : option fn) : M loc :=
  check_args E "SFFF" src0 ;;
  uuid <- create_uuid E ;;
  this <- alloc_with_id uuid ;;
  registry_set uuid this ;;
  update this (set_src src0) ;;
  update this (set_successCallback successCallback0) ;;
  update this (set_errorCallback errorCallback0) ;;
  update this (set_statusCallback statusCallback0) ;;
  update this (set_duration (JNum (-1))) ;;
  update this (set_position (JNum (-1))) ;;
  onStatus_this this (JNum MEDIA_STATE) (JNum MEDIA_STARTING) ;;
  try_createNode this ;;
  ret this.

Definition play (this : loc) : M jsval :=
  m <- deref this ;;
  (match node m with
   | None => try_createNode this
   | Some _ => ret tt
   end) ;;
  this_node_do E this OpPlay ;;
  ret JUndefined.

Definition seekTo (this : loc) (milliseconds : jsval) : M jsval :=
  try_catch
    (this_node_do E this (OpSetCurrentTime (div1000 (str_to_number E) milliseconds)) ;;
     ret JUndefined)
    (fun err => onStatus_this this (JNum MEDIA_ERROR) err ;; ret JUndefined).

Definition pause (this : loc) : M jsval :=
  try_catch
    (this_node_do E this OpPause ;;
     onStatus_this this (JNum MEDIA_STATE) (JNum MEDIA_PAUSED) ;;
     ret JUndefined)
    (fun err => onStatus_this this (JNum MEDIA_ERROR) err ;; ret JUndefined).

Definition stop (this : loc) : M jsval :=
  try_catch
    (pause this ;;
     seekTo this (JNum 0) ;;
     onStatus_this this (JNum MEDIA_STATE) (JNum MEDIA_STOPPED) ;;
     ret JUndefined)
    (fun err => onStatus_this this (JNum MEDIA_ERROR) err ;; ret JUndefined).

Definition getDuration (this : loc) : M jsval :=
  m <- deref this ;;
  ret (_duration m).

Definition getCurrentPosition (this : loc) (success fail : option fn) : M jsval :=
  try_catch
    (p <- this_node_do E this OpGetCurrentTime ;;
     onStatus_this this (JNum MEDIA_POSITION) p ;;
     call_param E success [p] ;;
     ret JUndefined)
    (fun err => call_param E fail [err] ;; ret JUndefined).

Definition startRecord (this : loc) : M jsval :=
  onStatus_this this (JNum MEDIA_ERROR) (JStr "Not supported") ;;
  ret JUndefined.

Definition stopRecord (this : loc) : M jsval :=
  onStatus_this this (JNum MEDIA_ERROR) (JStr "Not supported") ;;
  ret JUndefined.

(** [delete this.node] *)
Definition release (this : loc) : M jsval :=
  try_catch
    (update this (set_node None) ;; ret JUndefined)
    (fun err => onStatus_this this (JNum MEDIA_ERROR) err ;; ret JUndefined).

Definition setVolume (this : loc) (volume : jsval) : M jsval :=
  this_node_do E this (OpSetVolume volume) ;;
  ret JUndefined.

(** [MediaRec.prototype]: every method this file defines. *)
Definition prototype (name : string) : option method :=
  if String.eqb name "play" then Some (Method0 play)
  else if String.eqb name "stop" then Some (Method0 stop)
  else if String.eqb name "seekTo" then Some (Method1 seekTo)
  else if String.eqb name "pause" then Some (Method0 pause)
  else if String.eqb name "getDuration" then Some (Method0 getDuration)
  else if String.eqb name "getCurrentPosition" then Some (MethodCb getCurrentPosition)
  else if String.eqb name "startRecord" then Some (Method0 startRecord)
  else if String.eqb name "stopRecord" then Some (Method0 stopRecord)
  else if String.eqb name "release" then Some (Method0 release)
  else if String.eqb name "setVolume" then Some (Method1 setVolume)
  else None.

End Browser.
End Browser.

(** ** The executor-backed proxy, [www/MediaRec.js] *)

(** The message the executor pushes: [{ action, status: { id, msgType, value } }]. *)
Record status_msg : Type := mkStatus {
  st_id : string;
  st_msgType : jsval;
  st_value : jsval
}.

Record message : Type := mkMessage {
  action : jsval;
  status : option status_msg
}.

Module Native.
Section Native.

Variable E : Env.

(** The constructor. *)
Definition new_MediaRec (src0 : jsval)
    (successCallback0 errorCallback0 statusCallback0 : option fn) : M loc :=
  check_args E "sFFF" src0 ;;
  uuid <- create_uuid E ;;
  this <- alloc_with_id uuid ;;
  registry_set uuid this ;;
  update this (set_src src0) ;;
  update this (set_successCallback successCallback0) ;;
  update this (set_errorCallback errorCallback0) ;;
  update this (set_statusCallback statusCallback0) ;;
  update this (set_duration (JNum (-1))) ;;
  update this (set_position (JNum (-1))) ;;
  m <- deref this ;;
  exec KNull (kont_of (errorCallback m)) "create" [JStr (id m); src m] ;;
  ret this.

(** [MediaRec.get] *)
Definition get (i : string) : M slot := registry_get i.

Definition play (this : loc) (options : jsval) : M jsval :=
  m <- deref this ;;
  exec KNull KNull "startPlayingAudio" [JStr (id m); src m; options] ;;
  ret JUndefined.

Definition stop (this : loc) : M jsval :=
  m <- deref this ;;
  exec (KStopWin this) (kont_of (errorCallback m)) "stopPlayingAudio" [JStr (id m)] ;;
  ret JUndefined.

Definition seekTo (this : loc) (milliseconds : jsval) : M jsval :=
  m <- deref this ;;
  exec (KSeekWin this) (kont_of (errorCallback m)) "seekToAudio"
    [JStr (id m); milliseconds] ;;
  ret JUndefined.

Definition pause (this : loc) : M jsval :=
  m <- deref this ;;
  exec KNull (kont_of (errorCallback m)) "pausePlayingAudio" [JStr (id m)] ;;
  ret JUndefined.

Definition getDuration (this : loc) : M jsval :=
  m <- deref this ;;
  ret (_duration m).

Definition getCurrentPosition (this : loc) (success fail : option fn) : M jsval :=
  m <- deref this ;;
  exec (KPositionWin this success) (kont_of fail) "getCurrentPositionAudio"
    [JStr (id m)] ;;
  ret JUndefined.

Definition startRecord (this : loc) : M jsval :=
  m <- deref this ;;
  exec KNull (kont_of (errorCallback m)) "startRecordingAudio" [JStr (id m); src m] ;;
  ret JUndefined.

Definition startRecordWithCompression (this : loc) (options : jsval) : M jsval :=
  m <- deref this ;;
  exec KNull (kont_of (errorCallback m)) "startRecordingAudioWithCompression"
    [JStr (id m); src m; options] ;;
  ret JUndefined.

Definition stopRecord (this : loc) : M jsval :=
  m <- deref this ;;
  exec KNull (kont_of (errorCallback m)) "stopRecordingAudio" [JStr (id m)] ;;
  ret JUndefined.

Definition pauseRecord (this : loc) : M jsval :=
  m <- deref this ;;
  exec KNull (kont_of (errorCallback m)) "pauseRecordingAudio" [JStr (id m)] ;;
  ret JUndefined.

Definition resumeRecord (this : loc) : M jsval :=
  m <- deref this ;;
  exec KNull (kont_of (errorCallback m)) "resumeRecordingAudio" [JStr (id m); src m] ;;
  ret JUndefined.

Definition getRecordLevels_android (this : loc) (success fail : option fn) : M jsval :=
  m <- deref this ;;
  exec (KDbWin this success) (kont_of fail) "getRecordDbLevel" [JStr (id m)] ;;
  ret JUndefined.

Definition getRecordLevels_ios (this : loc) (success fail : option fn) : M jsval :=
  m <- deref this ;;
  exec (kont_of success) (kont_of fail) "getAudioRecordingLevels" [JStr (id m)] ;;
  ret JUndefined.

Definition release (this : loc) : M jsval :=
  m <- deref this ;;
  exec KNull (kont_of (errorCallback m)) "release" [JStr (id m)] ;;
  ret JUndefined.

Definition setVolume (this : loc) (volume : jsval) : M jsval :=
  m <- deref this ;;
  exec KNull KNull "setVolume" [JStr (id m); volume] ;;
  ret JUndefined.

(** [MediaRec.prototype]: every method this file defines;
    [getRecordLevels] exists on two platforms only. *)
Definition prototype (name : string) : option method :=
  if String.eqb name "play" then Some (Method1 play)
  else if String.eqb name "stop" then Some (Method0 stop)
  else if String.eqb name "seekTo" then Some (Method1 seekTo)
  else if String.eqb name "pause" then Some (Method0 pause)
  else if String.eqb name "getDuration" then Some (Method0 getDuration)
  else if String.eqb name "getCurrentPosition" then Some (MethodCb getCurrentPosition)
  else if String.eqb name "startRecord" then Some (Method0 startRecord)
  else if String.eqb name "startRecordWithCompression"
    then Some (Method1 startRecordWithCompression)
  else if String.eqb name "stopRecord" then Some (Method0 stopRecord)
  else if String.eqb name "pauseRecord" then Some (Method0 pauseRecord)
  else if String.eqb name "resumeRecord" then Some (Method0 resumeRecord)
  else if String.eqb name "getRecordLevels" then
    if String.eqb (platformId E) "android" then Some (MethodCb getRecordLevels_android)
    else if String.eqb (platformId E) "ios" then Some (MethodCb getRecordLevels_ios)
    else None
  else if String.eqb name "release" then Some (Method0 release)
  else if String.eqb name "setVolume" then Some (Method1 setVolume)
  else None.

(** [MediaRec.onStatus].  The call itself is the first event it records. *)
Definition onStatus (i : string) (msgType value : jsval) : M unit :=
  emit (EvStatus i msgType value) ;;
  media <- registry_get i ;;
  match media with
  | Handle media =>
      if strict_eq_num msgType MEDIA_STATE then
        m <- deref media ;;
        call_if_present E (statusCallback m) [value] ;;
        if loose_eq_num (str_to_number E) value MEDIA_STOPPED then
          m <- deref media ;;
          call_if_present E (successCallback m) []
        else ret tt
      else if strict_eq_num msgType MEDIA_DURATION then
        update media (set_duration value)
      else if strict_eq_num msgType MEDIA_ERROR then
        m <- deref media ;;
        call_if_present E (errorCallback m) [value]
      else if strict_eq_num msgType MEDIA_POSITION then
        update media (set_position (to_number (str_to_number E) value))
      else
        console_error_if_present E "Unhandled MediaRec.onStatus :: " msgType
  | Inherited name =>
      (* the same switch on an inherited member, which has none of the
         three callbacks: the conjunctions stop at [undefined] *)
      if strict_eq_num msgType MEDIA_STATE then ret tt
      else if strict_eq_num msgType MEDIA_DURATION then
        emit (EvStoreInherited name "_duration" value)
      else if strict_eq_num msgType MEDIA_ERROR then ret tt
      else if strict_eq_num msgType MEDIA_POSITION then
        emit (EvStoreInherited name "_position" (to_number (str_to_number E) value))
      else
        console_error_if_present E "Unhandled MediaRec.onStatus :: " msgType
  | Absent =>
      console_error_if_present E
        "Received MediaRec.onStatus callback for unknown media :: " (JStr i)
  end.

(** [onMessageFromNative] *)
Definition onMessageFromNative (msg : message) : M unit :=
  if loose_eq_status (str_to_number E) (action msg) then
    match status msg with
    | Some st => onStatus (st_id st) (st_msgType st) (st_value st)
    | None => throw (TypeError "id")
    end
  else
    throw (JErr "Error" "Unknown media action" (action msg)).

(** The executor answers a request: it calls the callback it was given
    with the result [p]. *)
Definition resolve (k : kont) (p : jsval) : M unit :=
  match k with
  | KNull => ret tt
  | KFn f => call E f [p]
  | KStopWin me => update me (set_position (JNum 0))
  | KSeekWin me => update me (set_position p)
  | KPositionWin me success =>
      update me (set_position p) ;;
      call_param E success [p]
  | KDbWin me success =>
      update me (set_db p) ;;
      call_param E success [p]
  end.

End Native.
End Native.

(** ** Vocabulary of the properties *)

(** The events of [cb && cb(args)]. *)
Definition calls (cb : option fn) (args : list jsval) : list event :=
  match cb with
  | Some f => [EvCall f args]
  | None => []
  end.

(** How [cb && cb(args)] ends when the trace so far is [t]. *)
Definition call_outcome (E : Env) (t : list event) (cb : option fn)
    (args : list jsval) : outcome unit :=
  match cb with
  | Some f => match call_fn E t f args with
              | None => Ret tt
              | Some e => Throw e
              end
  | None => Ret tt
  end.

(** The events of [console.error && console.error(text + operand)]. *)
Definition diagnostic (E : Env) (text : string) (operand : jsval) : list event :=
  if console_error E then [EvConsoleError text operand] else [].

(** Whether a status event for [__proto__] stored the property [prop] on
    [Object.prototype] itself during the trace [t]. *)
Definition stored_on_Object_prototype (t : list event) (prop : string) : bool :=
  existsb (fun ev => match ev with
                     | EvStoreInherited name p _ =>
                         String.eqb name "__proto__" && String.eqb p prop
                     | _ => false
                     end) t.

(** What the switch of [onStatus] does, after the entry, when [media] is
    the inherited member [name]. *)
Definition on_inherited (E : Env) (name : string) (msgType value : jsval)
    : list event :=
  if strict_eq_num msgType MEDIA_STATE then []
  else if strict_eq_num msgType MEDIA_DURATION then
    [EvStoreInherited name "_duration" value]
  else if strict_eq_num msgType MEDIA_ERROR then []
  else if strict_eq_num msgType MEDIA_POSITION then
    [EvStoreInherited name "_position" (to_number (str_to_number E) value)]
  else diagnostic E "Unhandled MediaRec.onStatus :: " msgType.

(** A callback that returns normally whenever it is called. *)
Definition never_throws (E : Env) (cb : option fn) : Prop :=
  forall f t args, cb = Some f -> call_fn E t f args = None.

(** The handle [m] at [this] is the one the registry holds for its
    identifier. *)
Definition registered (w : world) (this : loc) (m : MediaRec) : Prop :=
  heap w !! this = Some m /\ mediaObjects w !! id m = Some this.

(** The events of an error status event for [m] carrying [e]. *)
Definition error_events (m : MediaRec) (e : jsval) : list event :=
  EvStatus (id m) (JNum MEDIA_ERROR) e :: calls (errorCallback m) [e].

(** The exception an event of the trace ended with, if it ended with one,
    when [before] is the trace up to it. *)
Definition raised (E : Env) (before : list event) (ev : event) : option jsval :=
  match ev with
  | EvCall f args => call_fn E before f args
  | EvNode n op => match audio E before n op with
                   | Throws e => Some e
                   | Returns _ => None
                   end
  | EvAudioNew _ => Audio_new E before
  | _ => None
  end.

(** Every exception raised during the events [t], which follow the trace
    [t0], is later the value of an error status event for [i]. *)
Definition failures_reported (E : Env) (i : string) (t0 t : list event) : Prop :=
  forall pre ev post e,
    t = pre ++ ev :: post ->
    raised E (t0 ++ pre) ev = Some e ->
    In (EvStatus i (JNum MEDIA_ERROR) e) post.

(** The handle the constructor builds before it emits anything. *)
Definition fresh_handle (uuid : string) (src0 : jsval)
    (successCallback0 errorCallback0 statusCallback0 : option fn) : MediaRec :=
  mkMediaRec uuid src0 successCallback0 errorCallback0 statusCallback0
    (JNum (-1)) (JNum (-1)) None JUndefined.

(** The world once the constructor has generated the identifier, registered
    the handle and initialised its properties. *)
Definition constructed (E : Env) (src0 : jsval)
    (successCallback0 errorCallback0 statusCallback0 : option fn) (w : world) : world :=
  let uuid := createUUID E (uuids w) in
  mkWorld
    (<[next_loc w := fresh_handle uuid src0 successCallback0 errorCallback0
                       statusCallback0]> (heap w))
    (<[uuid := next_loc w]> (mediaObjects w))
    (trace w) (S (next_loc w)) (S (uuids w)) (nodes w).

(** What no operation on an existing handle changes: its identifier, its
    source and its three callbacks. *)
Definition same_identity (m m' : MediaRec) : Prop :=
  id m' = id m /\ src m' = src m
  /\ successCallback m' = successCallback m
  /\ errorCallback m' = errorCallback m
  /\ statusCallback m' = statusCallback m.

(** [w'] comes after [w]: the registry is the same, every handle is still
    there with the same identity, and the trace has only grown. *)
Definition evolves (w w' : world) : Prop :=
  mediaObjects w' = mediaObjects w
  /\ (forall l m, heap w !! l = Some m ->
        exists m', heap w' !! l = Some m' /\ same_identity m m')
  /\ (exists t, trace w' = trace w ++ t).

(** A computation after which the world has only evolved, however it ends. *)
Definition steady {A} (c : M A) : Prop :=
  forall w, evolves w (snd (c w)).

(** The events that are operations on an [Audio] element. *)
Definition is_node_event (ev : event) : bool :=
  match ev with
  | EvNode _ _ => true
  | _ => false
  end.

(** The reading of [stop()] under which a failed [node.pause()] ends it:
    the failure is reported, and neither the seek to zero nor the Stopped
    event follows. *)
Definition stop_halts_when_pause_fails : Prop :=
  forall E w this m n e t,
    registered w this m -> node m = Some n ->
    audio E (trace w) n OpPause = Throws e ->
    trace (snd (Browser.stop E this w)) = trace w ++ t ->
    In (EvStatus (id m) (JNum MEDIA_ERROR) e) t
    /\ ~ In (EvNode n (OpSetCurrentTime (JNum 0))) t
    /\ ~ In (EvStatus (id m) (JNum MEDIA_STATE) (JNum MEDIA_STOPPED)) t.

(** The reading of [getCurrentPosition] under which the executor-backed
    proxy, too, emits a position status event when the executor answers
    with [p]. *)
Definition position_answer_emits_status_event : Prop :=
  forall E w this m success p t,
    registered w this m ->
    trace (snd (Native.resolve E (KPositionWin this (Some success)) p w)) = trace w ++ t ->
    In (EvCall success [p]) t
    /\ In (EvStatus (id m) (JNum MEDIA_POSITION) p) t.

(** The reading of the state-change dispatch under which a Stopped event
    for a handle with a success callback always reaches that callback,
    whatever the status callback did. *)
Definition stopped_event_always_reaches_success : Prop :=
  forall E w i l m success t,
    mediaObjects w !! i = Some l -> heap w !! l = Some m ->
    successCallback m = Some success ->
    trace (snd (Browser.onStatus E i (JNum MEDIA_STATE) (JNum MEDIA_STOPPED) w))
      = trace w ++ t ->
    In (EvCall success []) t.

(** A method every call of which leaves the world only evolved. *)
Definition steady_method (mt : method) : Prop :=
  match mt with
  | Method0 body => forall this, steady (body this)
  | Method1 body => forall this v, steady (body this v)
  | MethodCb body => forall this success fail, steady (body this success fail)
  end.

(** The world after [new Audio()] was evaluated, whether it returned the
    element or threw. *)
Definition audio_requested (w : world) : world :=
  mkWorld (heap w) (mediaObjects w) (trace w ++ [EvAudioNew (nodes w)])
    (next_loc w) (uuids w) (S (nodes w)).

(** A call that returns [undefined], changes no handle and hands exactly
    one request to the executor, whose first argument is the identifier of
    [m]. *)
Definition forwards_one_request (c : M jsval) (w : world) (m : MediaRec) : Prop :=
  exists win fail action rest,
    c w = (Ret JUndefined, log [EvExec win fail action (JStr (id m) :: rest)] w).

(** The methods of the executor-backed proxy that hand [this.errorCallback]
    to the executor. *)
Definition reports_to_errorCallback : list string :=
  ["stop"; "seekTo"; "pause"; "startRecord"; "startRecordWithCompression";
   "stopRecord"; "pauseRecord"; "resumeRecord"; "release"].

(** *** Surroundings and worlds to run the proxies in *)

Definition uuid_of (n : nat) : string := String.concat "" (repeat "u" (S n)).

(** Nothing ever fails: [MediaError] has the codes of the HTML interface,
    no string is a number, every argument check passes. *)
Definition quiet : Env :=
  mkEnv (fun _ => JNaN) true 1 4 "browser" (fun _ _ => None) uuid_of
    (fun _ => None) (fun _ _ _ => Returns JUndefined) (fun _ _ _ => None).

(** As [quiet], but [node.pause()] throws. *)
Definition failing_pause : Env :=
  mkEnv (fun _ => JNaN) true 1 4 "browser" (fun _ _ => None) uuid_of
    (fun _ => None)
    (fun _ _ op => match op with
                   | OpPause => Throws (JStr "boom")
                   | _ => Returns JUndefined
                   end)
    (fun _ _ _ => None).

(** As [quiet], but the position of the element reads 4200. *)
Definition at_4200 : Env :=
  mkEnv (fun _ => JNaN) true 1 4 "browser" (fun _ _ => None) uuid_of
    (fun _ => None)
    (fun _ _ op => match op with
                   | OpGetCurrentTime => Returns (JNum 4200)
                   | _ => Returns JUndefined
                   end)
    (fun _ _ _ => None).

(** As [quiet], but [new Audio()] throws. *)
Definition no_audio : Env :=
  mkEnv (fun _ => JNaN) true 1 4 "browser" (fun _ _ => None) uuid_of
    (fun _ => Some (JStr "no Audio")) (fun _ _ _ => Returns JUndefined)
    (fun _ _ _ => None).

(** As [quiet], but the argument check rejects everything. *)
Definition strict_check : Env :=
  mkEnv (fun _ => JNaN) true 1 4 "browser"
    (fun _ _ => Some (TypeError "Wrong type for parameter")) uuid_of
    (fun _ => None) (fun _ _ _ => Returns JUndefined) (fun _ _ _ => None).

(** As [quiet], but every generated identifier is ["u"]. *)
Definition same_uuid : Env :=
  mkEnv (fun _ => JNaN) true 1 4 "browser" (fun _ _ => None) (fun _ => "u")
    (fun _ => None) (fun _ _ _ => Returns JUndefined) (fun _ _ _ => None).

(** As [quiet], on Android and on iOS. *)
Definition android : Env :=
  mkEnv (fun _ => JNaN) true 1 4 "android" (fun _ _ => None) uuid_of
    (fun _ => None) (fun _ _ _ => Returns JUndefined) (fun _ _ _ => None).

Definition ios : Env :=
  mkEnv (fun _ => JNaN) true 1 4 "ios" (fun _ _ => None) uuid_of
    (fun _ => None) (fun _ _ _ => Returns JUndefined) (fun _ _ _ => None).

(** As [quiet], but the string ["4"] reads as the number 4. *)
Definition reads_four : Env :=
  mkEnv (fun s => if String.eqb s "4" then JNum 4 else JNaN) true 1 4 "browser"
    (fun _ _ => None) uuid_of
    (fun _ => None) (fun _ _ _ => Returns JUndefined) (fun _ _ _ => None).

(** As [quiet], but the function 12 throws whenever it is called. *)
Definition throwing_status : Env :=
  mkEnv (fun _ => JNaN) true 1 4 "browser" (fun _ _ => None) uuid_of
    (fun _ => None) (fun _ _ _ => Returns JUndefined)
    (fun _ f _ => if Nat.eqb f 12 then Some (JStr "boom") else None).

(** One handle for ["a.mp3"] with the callbacks 10, 11 and 12, built by the
    standalone and by the executor-backed constructor. *)
Definition browser_world (E : Env) : world :=
  snd (Browser.new_MediaRec E (JStr "a.mp3") (Some 10) (Some 11) (Some 12) world0).

Definition native_world (E : Env) : world :=
  snd (Native.new_MediaRec E (JStr "a.mp3") (Some 10) (Some 11) (Some 12) world0).

Definition browser_handle : MediaRec :=
  mkMediaRec "u" (JStr "a.mp3") (Some 10) (Some 11) (Some 12)
    (JNum (-1)) (JNum (-1)) (Some 0) JUndefined.

Definition native_handle : MediaRec :=
  mkMediaRec "u" (JStr "a.mp3") (Some 10) (Some 11) (Some 12)
    (JNum (-1)) (JNum (-1)) None JUndefined.

(** ** Running computations *)

Lemma log_log t1 t2 w : log t2 (log t1 w) = log (t1 ++ t2) w.
Proof. unfold log; simpl. by rewrite app_assoc. Qed.

Lemma log_nil w : log [] w = w.
Proof. destruct w; unfold log; simpl. by rewrite app_nil_r. Qed.

Lemma call_if_present_run E cb args w :
  call_if_present E cb args w
  = (call_outcome E (trace w) cb args, log (calls cb args) w).
Proof.
  destruct cb as [f|]; simpl; [|by rewrite log_nil].
  unfold call. by destruct (call_fn E (trace w) f args).
Qed.

Lemma call_outcome_never_throws E t cb args :
  never_throws E cb -> call_outcome E t cb args = Ret tt.
Proof.
  intros H. destruct cb as [f|]; simpl; [|done]. by rewrite (H f t args).
Qed.

(** *** One step of a computation *)

Lemma bind_emit {B} ev (k : unit -> M B) w :
  bind (emit ev) k w = k tt (log [ev] w).
Proof. reflexivity. Qed.

Lemma bind_registry_get {B} i (k : slot -> M B) w :
  bind (registry_get i) k w
  = k (match mediaObjects w !! i with
       | Some l => Handle l
       | None => if inherited_name i then Inherited i else Absent
       end) w.
Proof. reflexivity. Qed.

Lemma bind_deref {B} l (k : MediaRec -> M B) w m :
  heap w !! l = Some m -> bind (deref l) k w = k m w.
Proof. intros H. unfold bind, deref. by rewrite H. Qed.

Lemma bind_update {B} l f (k : unit -> M B) w m :
  heap w !! l = Some m -> bind (update l f) k w = k tt (store l (f m) w).
Proof. intros H. unfold bind, update. by rewrite H. Qed.

Lemma bind_call_if_present {B} E cb args (k : unit -> M B) w :
  bind (call_if_present E cb args) k w
  = match call_outcome E (trace w) cb args with
    | Ret _ => k tt (log (calls cb args) w)
    | Throw e => (Throw e, log (calls cb args) w)
    end.
Proof.
  unfold bind. rewrite call_if_present_run.
  by destruct (call_outcome E (trace w) cb args) as [[]|e].
Qed.

(** *** The dispatcher of the standalone proxy *)

Lemma browser_onStatus_unknown E w i mt v :
  mediaObjects w !! i = None -> inherited_name i = false ->
  Browser.onStatus E i mt v w
  = (Ret tt, log (EvStatus i mt v ::
        diagnostic E "Received MediaRec.onStatus callback for unknown media :: "
          (JStr i)) w).
Proof.
  intros H Hn. unfold Browser.onStatus, diagnostic.
  rewrite bind_emit, bind_registry_get. simpl. rewrite H, Hn.
  unfold console_error_if_present.
  destruct (console_error E); unfold emit, ret; by rewrite ?log_log.
Qed.


Lemma browser_onStatus_state E w i l m v :
  mediaObjects w !! i = Some l -> heap w !! l = Some m ->
  Browser.onStatus E i (JNum MEDIA_STATE) v w
  = match call_outcome E (trace w ++ [EvStatus i (JNum MEDIA_STATE) v])
            (statusCallback m) [v] with
    | Throw e => (Throw e, log (EvStatus i (JNum MEDIA_STATE) v
                                 :: calls (statusCallback m) [v]) w)
    | Ret _ =>
        if strict_eq_num v MEDIA_STOPPED then
          (call_outcome E (trace w ++ EvStatus i (JNum MEDIA_STATE) v
                             :: calls (statusCallback m) [v])
             (successCallback m) [],
           log (EvStatus i (JNum MEDIA_STATE) v :: calls (statusCallback m) [v]
                  ++ calls (successCallback m) []) w)
        else (Ret tt, log (EvStatus i (JNum MEDIA_STATE) v
                             :: calls (statusCallback m) [v]) w)
    end.
Proof.
  intros Hi Hl. unfold Browser.onStatus.
  rewrite bind_emit, bind_registry_get. simpl. rewrite Hi. simpl.
  rewrite (bind_deref _ _ _ m) by done.
  rewrite bind_call_if_present. simpl.
  destruct (call_outcome _ _ (statusCallback m) [v]) as [[]|e];
    rewrite log_log; simpl; [|done].
  destruct (strict_eq_num v MEDIA_STOPPED); [|done].
  rewrite (bind_deref _ _ _ m) by done.
  by rewrite call_if_present_run, log_log.
Qed.

Lemma browser_onStatus_error E w i l m e :
  mediaObjects w !! i = Some l -> heap w !! l = Some m ->
  Browser.onStatus E i (JNum MEDIA_ERROR) e w
  = (call_outcome E (trace w ++ [EvStatus i (JNum MEDIA_ERROR) e])
       (errorCallback m) [e],
     log (EvStatus i (JNum MEDIA_ERROR) e :: calls (errorCallback m) [e]) w).
Proof.
  intros Hi Hl. unfold Browser.onStatus.
  rewrite bind_emit, bind_registry_get. simpl. rewrite Hi. simpl.
  rewrite (bind_deref _ _ _ m) by done.
  by rewrite call_if_present_run, log_log.
Qed.

Lemma browser_onStatus_duration E w i l m v :
  mediaObjects w !! i = Some l -> heap w !! l = Some m ->
  Browser.onStatus E i (JNum MEDIA_DURATION) v w
  = (Ret tt, store l (set_duration v m)
               (log [EvStatus i (JNum MEDIA_DURATION) v] w)).
Proof.
  intros Hi Hl. unfold Browser.onStatus.
  rewrite bind_emit, bind_registry_get. simpl. rewrite Hi. simpl.
  unfold update. simpl. by rewrite Hl.
Qed.

Lemma browser_onStatus_position E w i l m v :
  mediaObjects w !! i = Some l -> heap w !! l = Some m ->
  Browser.onStatus E i (JNum MEDIA_POSITION) v w
  = (Ret tt, store l (set_position (to_number (str_to_number E) v) m)
               (log [EvStatus i (JNum MEDIA_POSITION) v] w)).
Proof.
  intros Hi Hl. unfold Browser.onStatus.
  rewrite bind_emit, bind_registry_get. simpl. rewrite Hi. simpl.
  unfold update. simpl. by rewrite Hl.
Qed.

Lemma browser_onStatus_this E w this m mt v :
  heap w !! this = Some m ->
  Browser.onStatus_this E this mt v w = Browser.onStatus E (id m) mt v w.
Proof. intros H. unfold Browser.onStatus_this. by rewrite (bind_deref _ _ _ m). Qed.

(** An error status event for a registered handle whose error callback
    never throws: the callback, when there is one, is called with the
    error, and the dispatch returns. *)
Lemma browser_report_error E w this m e :
  registered w this m -> never_throws E (errorCallback m) ->
  Browser.onStatus_this E this (JNum MEDIA_ERROR) e w
  = (Ret tt, log (error_events m e) w).
Proof.
  intros [Hl Hi] Hq.
  rewrite (browser_onStatus_this _ _ _ m) by done.
  rewrite (browser_onStatus_error _ _ _ this m) by done.
  by rewrite call_outcome_never_throws.
Qed.

(** *** The dispatcher of the executor-backed proxy *)

Lemma native_onStatus_unknown E w i mt v :
  mediaObjects w !! i = None -> inherited_name i = false ->
  Native.onStatus E i mt v w
  = (Ret tt, log (EvStatus i mt v ::
        diagnostic E "Received MediaRec.onStatus callback for unknown media :: "
          (JStr i)) w).
Proof.
  intros H Hn. unfold Native.onStatus, diagnostic.
  rewrite bind_emit, bind_registry_get. simpl. rewrite H, Hn.
  unfold console_error_if_present.
  destruct (console_error E); unfold emit, ret; by rewrite ?log_log.
Qed.

Lemma native_onStatus_inherited E w i mt v :
  mediaObjects w !! i = None -> inherited_name i = true ->
  Native.onStatus E i mt v w
  = (Ret tt, log (EvStatus i mt v :: on_inherited E i mt v) w).
Proof.
  intros H Hn. unfold Native.onStatus, on_inherited, diagnostic.
  rewrite bind_emit, bind_registry_get. simpl. rewrite H, Hn.
  unfold console_error_if_present, emit, ret.
  repeat case_match; by rewrite ?log_log.
Qed.

Lemma native_onStatus_state E w i l m v :
  mediaObjects w !! i = Some l -> heap w !! l = Some m ->
  Native.onStatus E i (JNum MEDIA_STATE) v w
  = match call_outcome E (trace w ++ [EvStatus i (JNum MEDIA_STATE) v])
            (statusCallback m) [v] with
    | Throw e => (Throw e, log (EvStatus i (JNum MEDIA_STATE) v
                                 :: calls (statusCallback m) [v]) w)
    | Ret _ =>
        if loose_eq_num (str_to_number E) v MEDIA_STOPPED then
          (call_outcome E (trace w ++ EvStatus i (JNum MEDIA_STATE) v
                             :: calls (statusCallback m) [v])
             (successCallback m) [],
           log (EvStatus i (JNum MEDIA_STATE) v :: calls (statusCallback m) [v]
                  ++ calls (successCallback m) []) w)
        else (Ret tt, log (EvStatus i (JNum MEDIA_STATE) v
                             :: calls (statusCallback m) [v]) w)
    end.
Proof.
  intros Hi Hl. unfold Native.onStatus.
  rewrite bind_emit, bind_registry_get. simpl. rewrite Hi. simpl.
  rewrite (bind_deref _ _ _ m) by done.
  rewrite bind_call_if_present. simpl.
  destruct (call_outcome _ _ (statusCallback m) [v]) as [[]|e];
    rewrite log_log; simpl; [|done].
  destruct (loose_eq_num _ v MEDIA_STOPPED); [|done].
  rewrite (bind_deref _ _ _ m) by done.
  by rewrite call_if_present_run, log_log.
Qed.

(** ** Status dispatch *)

(** C2, as amended.  A state-change event for a registered handle.  The
    status callback, when there is one, is called with the new state.  When
    it returns normally, or there is none, the success callback, when there
    is one, is then called once exactly when the state is Stopped, by [===]
    in the standalone proxy and by [==] in the executor-backed one, which
    agree on numbers; nothing else is called.  When the status callback
    throws, the exception leaves the dispatcher and the success callback is
    not called, Stopped or not.  A missing callback is skipped and is no
    error. *)
Theorem state_event_dispatch E w i l m v :
  mediaObjects w !! i = Some l -> heap w !! l = Some m ->
  let entry := EvStatus i (JNum MEDIA_STATE) v in
  let status_call := calls (statusCallback m) [v] in
  let success_call := calls (successCallback m) [] in
  let heard := call_outcome E (trace w ++ [entry]) (statusCallback m) [v] in
  let finished :=
    call_outcome E (trace w ++ entry :: status_call) (successCallback m) [] in
  (heard = Ret tt ->
     Browser.onStatus E i (JNum MEDIA_STATE) v w
     = (if strict_eq_num v MEDIA_STOPPED
        then (finished, log (entry :: status_call ++ success_call) w)
        else (Ret tt, log (entry :: status_call) w))
     /\ Native.onStatus E i (JNum MEDIA_STATE) v w
     = (if loose_eq_num (str_to_number E) v MEDIA_STOPPED
        then (finished, log (entry :: status_call ++ success_call) w)
        else (Ret tt, log (entry :: status_call) w)))
  /\ (forall e, heard = Throw e ->
        Browser.onStatus E i (JNum MEDIA_STATE) v w
        = (Throw e, log (entry :: status_call) w)
        /\ Native.onStatus E i (JNum MEDIA_STATE) v w
        = (Throw e, log (entry :: status_call) w))
  /\ (statusCallback m = None -> heard = Ret tt /\ status_call = [])
  /\ (successCallback m = None -> finished = Ret tt /\ success_call = [])
  /\ (forall n : Q, v = JNum n ->
        strict_eq_num v MEDIA_STOPPED = Qeq_bool n MEDIA_STOPPED
        /\ loose_eq_num (str_to_number E) v MEDIA_STOPPED = Qeq_bool n MEDIA_STOPPED).
Proof.
  intros Hi Hl entry status_call success_call heard finished.
  subst entry status_call success_call heard finished.
  split; [|split; [|split; [|split]]].
  - intros Hs.
    rewrite (browser_onStatus_state _ _ _ l m), (native_onStatus_state _ _ _ l m) by done.
    rewrite Hs. split; by case_match.
  - intros e Hs.
    rewrite (browser_onStatus_state _ _ _ l m), (native_onStatus_state _ _ _ l m) by done.
    by rewrite Hs.
  - by intros ->.
  - by intros ->.
  - by intros n ->.
Qed.

(** The witness of [state_event_dispatch]: a Stopped event for a handle
    whose callbacks return, and one for a handle whose status callback
    throws. *)
Lemma state_event_dispatch_witness :
  Browser.onStatus quiet "u" (JNum MEDIA_STATE) (JNum 4) (browser_world quiet)
  = (Ret tt, log [EvStatus "u" (JNum MEDIA_STATE) (JNum 4);
                  EvCall 12 [JNum 4]; EvCall 10 []] (browser_world quiet))
  /\ Native.onStatus throwing_status "u" (JNum MEDIA_STATE) (JNum 4)
       (native_world throwing_status)
  = (Throw (JStr "boom"),
     log [EvStatus "u" (JNum MEDIA_STATE) (JNum 4); EvCall 12 [JNum 4]]
       (native_world throwing_status)).
Proof.
  split.
  - exact (proj1 (proj1 (state_event_dispatch quiet (browser_world quiet) "u" 0
                           browser_handle (JNum 4) eq_refl eq_refl) eq_refl)).
  - exact (proj2 (proj1 (proj2 (state_event_dispatch throwing_status
                                  (native_world throwing_status) "u" 0
                                  native_handle (JNum 4) eq_refl eq_refl))
                    (JStr "boom") eq_refl)).
Defined.

(** A Stopped event for the handle of [browser_world throwing_status],
    whose status callback throws. *)
Lemma stopped_event_with_throwing_status_run :
  Browser.onStatus throwing_status "u" (JNum MEDIA_STATE) (JNum MEDIA_STOPPED)
    (browser_world throwing_status)
  = (Throw (JStr "boom"),
     log [EvStatus "u" (JNum MEDIA_STATE) (JNum MEDIA_STOPPED);
          EvCall 12 [JNum MEDIA_STOPPED]] (browser_world throwing_status)).
Proof. by rewrite (browser_onStatus_state _ _ _ 0 native_handle). Qed.

(** C2, as stated, fails: when the status callback throws on the Stopped
    event, the success callback is not called. *)
Lemma success_skipped_when_status_callback_throws :
  ~ stopped_event_always_reaches_success.
Proof.
  intros H.
  specialize (H throwing_status (browser_world throwing_status) "u" 0
                native_handle 10
                [EvStatus "u" (JNum MEDIA_STATE) (JNum MEDIA_STOPPED);
                 EvCall 12 [JNum MEDIA_STOPPED]] eq_refl eq_refl eq_refl).
  rewrite stopped_event_with_throwing_status_run in H.
  specialize (H eq_refl). simpl in H.
  destruct H as [H|[H|[]]]; discriminate H.
Qed.



(** X29. A status event for an identifier that the registry does not hold
    and that names no member inherited from [Object.prototype], neither
    one the language defines nor a property an earlier event for
    [__proto__] stored there: the dispatch returns normally, no handle and
    no registry entry changes, and where [console.error] exists the
    diagnostic is written.  Both proxies. *)
Theorem unknown_id_dropped E w i mt v :
  mediaObjects w !! i = None -> inherited_name i = false ->
  stored_on_Object_prototype (trace w) i = false ->
  (exists w',
     Browser.onStatus E i mt v w = (Ret tt, w')
     /\ heap w' = heap w /\ mediaObjects w' = mediaObjects w
     /\ (console_error E = true ->
         trace w' = trace w ++
           [EvStatus i mt v;
            EvConsoleError "Received MediaRec.onStatus callback for unknown media :: "
              (JStr i)]))
  /\ (exists w',
     Native.onStatus E i mt v w = (Ret tt, w')
     /\ heap w' = heap w /\ mediaObjects w' = mediaObjects w
     /\ (console_error E = true ->
         trace w' = trace w ++
           [EvStatus i mt v;
            EvConsoleError "Received MediaRec.onStatus callback for unknown media :: "
              (JStr i)])).
Proof.
  intros H Hn _. split.
  - rewrite browser_onStatus_unknown by done. eexists; split; [reflexivity|].
    repeat split. unfold diagnostic. by intros ->.
  - rewrite native_onStatus_unknown by done. eexists; split; [reflexivity|].
    repeat split. unfold diagnostic. by intros ->.
Qed.

Lemma unknown_id_dropped_witness :
  exists w',
    Browser.onStatus quiet "nobody" (JNum MEDIA_DURATION) (JNum 7) (browser_world quiet)
    = (Ret tt, w')
    /\ heap w' = heap (browser_world quiet)
    /\ mediaObjects w' = mediaObjects (browser_world quiet)
    /\ trace w' = trace (browser_world quiet) ++
         [EvStatus "nobody" (JNum MEDIA_DURATION) (JNum 7);
          EvConsoleError "Received MediaRec.onStatus callback for unknown media :: "
            (JStr "nobody")].
Proof.
  destruct (unknown_id_dropped quiet (browser_world quiet) "nobody"
              (JNum MEDIA_DURATION) (JNum 7) eq_refl eq_refl eq_refl)
    as [[w' (H & Hh & Hm & Ht)] _].
  exists w'. repeat split; try assumption. apply Ht. reflexivity.
Defined.

(** ** Errors of the player element *)

(** C5. The element of a registered handle with an error callback reports
    an error.  When the code of the error is [MEDIA_ERR_SRC_NOT_SUPPORTED]
    the callback receives a fresh error whose code is [MEDIA_ERR_ABORTED],
    which is not [MEDIA_ERR_SRC_NOT_SUPPORTED]; any other error is handed
    to the callback as it is. *)
Theorem source_not_supported_becomes_aborted E w media m f error code :
  registered w media m -> errorCallback m = Some f ->
  get_prop error "code" = inl code ->
  ~ (MEDIA_ERR_ABORTED E == MEDIA_ERR_SRC_NOT_SUPPORTED E)%Q ->
  (strict_eq_num code (MEDIA_ERR_SRC_NOT_SUPPORTED E) = true ->
   let delivered := JObj [("code", JNum (MEDIA_ERR_ABORTED E))] in
   trace (snd (Browser.node_onerror E media error w))
   = trace w ++ [EvStatus (id m) (JNum MEDIA_ERROR) delivered; EvCall f [delivered]]
   /\ strict_eq_num (JNum (MEDIA_ERR_ABORTED E)) (MEDIA_ERR_SRC_NOT_SUPPORTED E) = false)
  /\ (strict_eq_num code (MEDIA_ERR_SRC_NOT_SUPPORTED E) = false ->
     trace (snd (Browser.node_onerror E media error w))
     = trace w ++ [EvStatus (id m) (JNum MEDIA_ERROR) error; EvCall f [error]]).
Proof.
  intros [Hl Hi] Hf Hc Hne. unfold Browser.node_onerror. rewrite Hc.
  split; intros Hs; rewrite Hs.
  - rewrite (browser_onStatus_this _ _ _ m) by done.
    rewrite (browser_onStatus_error _ _ _ media m) by done.
    rewrite Hf. simpl. split; [done|].
    apply not_true_is_false. intros Heq. apply Qeq_bool_iff in Heq. by apply Hne.
  - rewrite (browser_onStatus_this _ _ _ m) by done.
    rewrite (browser_onStatus_error _ _ _ media m) by done.
    by rewrite Hf.
Qed.

Lemma source_not_supported_becomes_aborted_witness :
  trace (snd (Browser.node_onerror quiet 0 (JObj [("code", JNum 4)]) (browser_world quiet)))
  = trace (browser_world quiet)
    ++ [EvStatus "u" (JNum MEDIA_ERROR) (JObj [("code", JNum 1)]);
        EvCall 11 [JObj [("code", JNum 1)]]]
  /\ trace (snd (Browser.node_onerror quiet 0 (JObj [("code", JNum 2)]) (browser_world quiet)))
  = trace (browser_world quiet)
    ++ [EvStatus "u" (JNum MEDIA_ERROR) (JObj [("code", JNum 2)]);
        EvCall 11 [JObj [("code", JNum 2)]]].
Proof.
  split.
  - destruct (source_not_supported_becomes_aborted quiet (browser_world quiet) 0
                browser_handle 11 (JObj [("code", JNum 4)]) (JNum 4)
                (conj eq_refl eq_refl) eq_refl eq_refl) as [H _].
    + intros Heq. discriminate Heq.
    + exact (proj1 (H eq_refl)).
  - destruct (source_not_supported_becomes_aborted quiet (browser_world quiet) 0
                browser_handle 11 (JObj [("code", JNum 2)]) (JNum 2)
                (conj eq_refl eq_refl) eq_refl eq_refl) as [_ H].
    + intros Heq. discriminate Heq.
    + exact (H eq_refl).
Defined.

(** ** The inbound channel *)

(** Whatever the dispatcher does, it records its own entry first. *)
Lemma native_onStatus_trace E i mt v w :
  exists t, trace (snd (Native.onStatus E i mt v w)) = trace w ++ EvStatus i mt v :: t.
Proof.
  unfold Native.onStatus. rewrite bind_emit, bind_registry_get. simpl.
  unfold bind, deref, update, call_if_present, console_error_if_present, call,
    emit, ret. simpl.
  repeat case_match; simplify_eq; simpl; rewrite <- ?app_assoc; simpl; by eexists.
Qed.

(** Only the string [status] equals ['status'], as long as that string is
    not the text of a number. *)
Lemma loose_eq_status_false E v :
  str_to_number E "status" = JNaN -> v <> JStr "status" ->
  loose_eq_status (str_to_number E) v = false.
Proof.
  intros HN Hv. destruct v; simpl; try done; rewrite ?HN; try done.
  apply String.eqb_neq. congruence.
Qed.

(** C9. A pushed message whose action is [status] is dispatched through
    [onStatus] with the identifier, kind and value it carries.  For any
    other action the handler throws an error naming the action, and the
    world (handles, registry, trace) stays as it was. *)
Theorem inbound_message E w msg :
  str_to_number E "status" = JNaN ->
  (forall st, action msg = JStr "status" -> status msg = Some st ->
     Native.onMessageFromNative E msg w
     = Native.onStatus E (st_id st) (st_msgType st) (st_value st) w
     /\ exists t, trace (snd (Native.onMessageFromNative E msg w))
                  = trace w ++ EvStatus (st_id st) (st_msgType st) (st_value st) :: t)
  /\ (action msg <> JStr "status" ->
      Native.onMessageFromNative E msg w
      = (Throw (JErr "Error" "Unknown media action" (action msg)), w)).
Proof.
  intros HN. split.
  - intros st Ha Hst. unfold Native.onMessageFromNative. rewrite Ha, Hst. simpl.
    split; [done|]. apply native_onStatus_trace.
  - intros Ha. unfold Native.onMessageFromNative.
    by rewrite loose_eq_status_false.
Qed.

Lemma inbound_message_witness :
  Native.onMessageFromNative quiet
    (mkMessage (JStr "status") (Some (mkStatus "u" (JNum MEDIA_DURATION) (JNum 30))))
    (native_world quiet)
  = Native.onStatus quiet "u" (JNum MEDIA_DURATION) (JNum 30) (native_world quiet)
  /\ Native.onMessageFromNative quiet (mkMessage (JStr "pause") None) (native_world quiet)
  = (Throw (JErr "Error" "Unknown media action" (JStr "pause")), native_world quiet).
Proof.
  split.
  - exact (proj1 (proj1 (inbound_message quiet (native_world quiet)
        (mkMessage (JStr "status") (Some (mkStatus "u" (JNum MEDIA_DURATION) (JNum 30))))
        eq_refl) _ eq_refl eq_refl)).
  - apply (proj2 (inbound_message quiet (native_world quiet)
        (mkMessage (JStr "pause") None) eq_refl)).
    simpl. intros H. discriminate H.
Defined.

(** ** What every operation preserves *)

Lemma same_identity_refl m : same_identity m m.
Proof. by repeat split. Qed.

Lemma same_identity_trans m1 m2 m3 :
  same_identity m1 m2 -> same_identity m2 m3 -> same_identity m1 m3.
Proof.
  intros (?&?&?&?&?) (?&?&?&?&?). repeat split; congruence.
Qed.

Lemma evolves_refl w : evolves w w.
Proof.
  split; [done|]. split.
  - intros l m H. exists m. split; [done|apply same_identity_refl].
  - exists []. by rewrite app_nil_r.
Qed.

Lemma evolves_trans w1 w2 w3 : evolves w1 w2 -> evolves w2 w3 -> evolves w1 w3.
Proof.
  intros (Hr1 & Hh1 & t1 & Ht1) (Hr2 & Hh2 & t2 & Ht2). split; [congruence|]. split.
  - intros l m H. destruct (Hh1 l m H) as (m2 & H2 & Hs2).
    destruct (Hh2 l m2 H2) as (m3 & H3 & Hs3).
    exists m3. split; [done|]. by eapply same_identity_trans.
  - exists (t1 ++ t2). by rewrite Ht2, Ht1, app_assoc.
Qed.

Lemma evolves_log t w : evolves w (log t w).
Proof.
  split; [done|]. split.
  - intros l m H. exists m. split; [done|apply same_identity_refl].
  - by exists t.
Qed.

Lemma evolves_store l m m' w :
  heap w !! l = Some m -> same_identity m m' -> evolves w (store l m' w).
Proof.
  intros Hl Hs. split; [done|]. split.
  - intros l' m0 H. simpl. destruct (decide (l = l')) as [<-|Hne].
    + rewrite lookup_insert_eq. exists m'. split; [done|]. congruence.
    + rewrite lookup_insert_ne by done. exists m0. split; [done|apply same_identity_refl].
  - exists []. simpl. by rewrite app_nil_r.
Qed.

Lemma steady_ret {A} (a : A) : steady (ret a).
Proof. intros w. apply evolves_refl. Qed.

Lemma steady_throw {A} e : steady (@throw A e).
Proof. intros w. apply evolves_refl. Qed.

Lemma steady_bind {A B} (c : M A) (k : A -> M B) :
  steady c -> (forall a, steady (k a)) -> steady (bind c k).
Proof.
  intros Hc Hk w. unfold bind. specialize (Hc w).
  destruct (c w) as [[a|e] w1]; simpl in *; [|done].
  eapply evolves_trans; [done|apply Hk].
Qed.

Lemma steady_try_catch {A} (c : M A) (h : jsval -> M A) :
  steady c -> (forall e, steady (h e)) -> steady (try_catch c h).
Proof.
  intros Hc Hh w. unfold try_catch. specialize (Hc w).
  destruct (c w) as [[a|e] w1]; simpl in *; [done|].
  eapply evolves_trans; [done|apply Hh].
Qed.

Lemma steady_emit ev : steady (emit ev).
Proof. intros w. apply evolves_log. Qed.

Lemma steady_deref l : steady (deref l).
Proof. intros w. unfold deref. destruct (heap w !! l); apply evolves_refl. Qed.

Lemma steady_registry_get i : steady (registry_get i).
Proof. intros w. apply evolves_refl. Qed.

Lemma steady_update l f :
  (forall m, same_identity m (f m)) -> steady (update l f).
Proof.
  intros Hf w. unfold update. destruct (heap w !! l) as [m|] eqn:Hl.
  - by apply (evolves_store l m).
  - apply evolves_refl.
Qed.

Lemma steady_call E f args : steady (call E f args).
Proof.
  intros w. unfold call. destruct (call_fn E (trace w) f args); apply evolves_log.
Qed.

Lemma steady_call_if_present E cb args : steady (call_if_present E cb args).
Proof. destruct cb; [apply steady_call|apply steady_ret]. Qed.

Lemma steady_call_param E cb args : steady (call_param E cb args).
Proof. destruct cb; [apply steady_call|apply steady_throw]. Qed.

Lemma steady_console E text v : steady (console_error_if_present E text v).
Proof.
  unfold console_error_if_present.
  destruct (console_error E); [apply steady_emit|apply steady_ret].
Qed.

Lemma steady_node_do E n op : steady (node_do E n op).
Proof.
  intros w. unfold node_do. destruct (audio E (trace w) n op); apply evolves_log.
Qed.

Lemma steady_this_node_do E this op : steady (this_node_do E this op).
Proof.
  apply steady_bind; [apply steady_deref|]. intros m.
  destruct (node m); [apply steady_node_do|apply steady_throw].
Qed.

Lemma steady_new_Audio E : steady (new_Audio E).
Proof.
  intros w. unfold new_Audio.
  destruct (Audio_new E (trace w)); simpl;
    (split; [done|]; split;
     [intros l m H; exists m; split; [done|apply same_identity_refl]
     |by eexists]).
Qed.

Lemma steady_exec win fail act args : steady (exec win fail act args).
Proof. apply steady_emit. Qed.

Create HintDb steady.
#[export] Hint Resolve steady_ret steady_throw steady_emit steady_deref
  steady_registry_get steady_call steady_call_if_present steady_call_param
  steady_console steady_node_do steady_this_node_do steady_new_Audio
  steady_exec : steady.

(** Breaks a computation into its steps. *)
Ltac steady_steps :=
  repeat first
    [ apply steady_bind; [|intros ?]
    | apply steady_try_catch; [|intros ?]
    | apply steady_update; intros ?; by repeat split
    | solve [auto with steady]
    | match goal with
      | |- steady (match ?x with _ => _ end) => destruct x
      | |- steady (if ?b then _ else _) => destruct b
      end ].

Lemma steady_browser_onStatus E i mt v : steady (Browser.onStatus E i mt v).
Proof. unfold Browser.onStatus. steady_steps. Qed.

Lemma steady_native_onStatus E i mt v : steady (Native.onStatus E i mt v).
Proof. unfold Native.onStatus. steady_steps. Qed.

#[export] Hint Resolve steady_browser_onStatus steady_native_onStatus : steady.

Lemma steady_browser_onStatus_this E this mt v :
  steady (Browser.onStatus_this E this mt v).
Proof. unfold Browser.onStatus_this. steady_steps. Qed.

#[export] Hint Resolve steady_browser_onStatus_this : steady.

Lemma steady_createNode E media : steady (Browser.createNode E media).
Proof. unfold Browser.createNode. steady_steps. Qed.

#[export] Hint Resolve steady_createNode : steady.

Lemma steady_try_createNode E this : steady (Browser.try_createNode E this).
Proof. unfold Browser.try_createNode. steady_steps. Qed.

#[export] Hint Resolve steady_try_createNode : steady.

(** No method of either proxy removes or replaces a registry entry, or
    changes the identifier, the source or a callback of a handle. *)
Lemma browser_methods_steady E name mt :
  Browser.prototype E name = Some mt -> steady_method mt.
Proof.
  unfold Browser.prototype. intros H.
  repeat case_match; simplify_eq; simpl; intros;
    unfold Browser.play, Browser.stop, Browser.pause, Browser.seekTo,
      Browser.getDuration, Browser.getCurrentPosition, Browser.startRecord,
      Browser.stopRecord, Browser.release, Browser.setVolume;
    steady_steps.
Qed.

Lemma native_methods_steady E name mt :
  Native.prototype E name = Some mt -> steady_method mt.
Proof.
  unfold Native.prototype. intros H.
  repeat case_match; simplify_eq; simpl; intros;
    unfold Native.play, Native.stop, Native.pause, Native.seekTo,
      Native.getDuration, Native.getCurrentPosition, Native.startRecord,
      Native.startRecordWithCompression, Native.stopRecord, Native.pauseRecord,
      Native.resumeRecord, Native.getRecordLevels_android,
      Native.getRecordLevels_ios, Native.release, Native.setVolume;
    steady_steps.
Qed.

(** Neither does an answer of the executor, a pushed message, or an event
    of the element. *)
Lemma native_resolve_steady E k p : steady (Native.resolve E k p).
Proof. unfold Native.resolve. destruct k; steady_steps. Qed.

Lemma native_onMessageFromNative_steady E msg :
  steady (Native.onMessageFromNative E msg).
Proof. unfold Native.onMessageFromNative. steady_steps. Qed.

Lemma browser_node_events_steady E media duration error :
  steady (Browser.node_onloadstart E media)
  /\ steady (Browser.node_onplaying E media)
  /\ steady (Browser.node_ondurationchange E media duration)
  /\ steady (Browser.node_onerror E media error)
  /\ steady (Browser.node_onended E media).
Proof.
  unfold Browser.node_onloadstart, Browser.node_onplaying,
    Browser.node_ondurationchange, Browser.node_onerror, Browser.node_onended.
  split; [|split; [|split; [|split]]]; steady_steps.
Qed.

(** ** Construction *)

(** Up to its first event the standalone constructor only builds and
    registers the handle. *)
Lemma browser_new_MediaRec_run E src0 s e st w :
  checkArgs E "SFFF" src0 = None ->
  Browser.new_MediaRec E src0 s e st w
  = (Browser.onStatus E (createUUID E (uuids w)) (JNum MEDIA_STATE) (JNum MEDIA_STARTING) ;;
     Browser.try_createNode E (next_loc w) ;;
     ret (next_loc w)) (constructed E src0 s e st w).
Proof.
  intros Hc. unfold Browser.new_MediaRec, check_args. rewrite Hc.
  unfold bind at 1, ret at 1. unfold bind at 1, create_uuid. 
  unfold bind at 1, alloc_with_id. simpl.
  unfold bind at 1, registry_set. simpl.
  do 6 (unfold bind at 1, update at 1; simpl; rewrite lookup_insert_eq;
        unfold store; simpl; rewrite insert_insert_eq).
  unfold Browser.onStatus_this at 1.
  unfold bind at 1. unfold bind at 1, deref at 1. simpl. rewrite lookup_insert_eq.
  reflexivity.
Qed.

Lemma native_new_MediaRec_run E src0 s e st w :
  checkArgs E "sFFF" src0 = None ->
  Native.new_MediaRec E src0 s e st w
  = (Ret (next_loc w),
     log [EvExec KNull (kont_of e) "create" [JStr (createUUID E (uuids w)); src0]]
       (constructed E src0 s e st w)).
Proof.
  intros Hc. unfold Native.new_MediaRec, check_args. rewrite Hc.
  unfold bind at 1, ret at 1. unfold bind at 1, create_uuid.
  unfold bind at 1, alloc_with_id. simpl.
  unfold bind at 1, registry_set. simpl.
  do 6 (unfold bind at 1, update at 1; simpl; rewrite lookup_insert_eq;
        unfold store; simpl; rewrite insert_insert_eq).
  unfold bind at 1, deref at 1. simpl. rewrite lookup_insert_eq.
  reflexivity.
Qed.

(** The rest of the standalone constructor leaves the registry alone. *)
Lemma steady_browser_constructor_rest E i this :
  steady (Browser.onStatus E i (JNum MEDIA_STATE) (JNum MEDIA_STARTING) ;;
          Browser.try_createNode E this ;; ret this).
Proof. steady_steps. Qed.

(** When no callback throws, the rest of the standalone constructor
    returns the handle. *)
Lemma browser_constructor_rest_returns E i this m w :
  registered w this m -> id m = i ->
  never_throws E (statusCallback m) -> never_throws E (errorCallback m) ->
  fst ((Browser.onStatus E i (JNum MEDIA_STATE) (JNum MEDIA_STARTING) ;;
        Browser.try_createNode E this ;; ret this) w) = Ret this.
Proof.
  intros [Hl Hi] <- Hst He. unfold bind at 1.
  rewrite (browser_onStatus_state _ _ _ this m) by done.
  rewrite call_outcome_never_throws by done. simpl.
  set (w1 := log _ w).
  assert (Hreg : forall t, registered (log t w1) this m) by (by split).
  unfold bind at 1, Browser.try_createNode, try_catch.
  unfold bind at 1, Browser.createNode. unfold bind at 1, new_Audio.
  destruct (Audio_new E (trace w1)) as [x|].
  { rewrite (browser_report_error _ _ _ m); [done| |done]. by split. }
  unfold bind at 1, deref at 1. simpl. rewrite Hl.
  destruct (truthy (src m)).
  - unfold bind at 1. unfold bind at 1, node_do. simpl.
    destruct (audio E _ _ _) as [x|x]; simpl.
    + unfold update. simpl. by rewrite Hl.
    + rewrite (browser_report_error _ _ _ m); [done| |done]. by split.
  - unfold bind at 1, ret at 1. unfold ret at 1, update. simpl. by rewrite Hl.
Qed.

(** C6. After a construction whose arguments pass the check, the registry
    maps the generated identifier to the new handle, which carries that
    identifier.  The executor-backed constructor returns the handle and
    [MediaRec.get] finds it; the standalone constructor returns no other
    handle than that one, and does return it when no callback throws. *)
Theorem constructed_handle_is_registered E src0 s e st w :
  let uuid := createUUID E (uuids w) in
  let this := next_loc w in
  (checkArgs E "SFFF" src0 = None ->
   let r := Browser.new_MediaRec E src0 s e st w in
   mediaObjects (snd r) !! uuid = Some this
   /\ (exists m, heap (snd r) !! this = Some m /\ id m = uuid)
   /\ (forall l, fst r = Ret l -> l = this)
   /\ (never_throws E st -> never_throws E e -> fst r = Ret this))
  /\ (checkArgs E "sFFF" src0 = None ->
      let r := Native.new_MediaRec E src0 s e st w in
      fst r = Ret this
      /\ Native.get uuid (snd r) = (Ret (Handle this), snd r)
      /\ (exists m, heap (snd r) !! this = Some m /\ id m = uuid)).
Proof.
  intros uuid this. split; intros Hc r; subst r uuid this.
  - rewrite browser_new_MediaRec_run by done.
    pose proof (steady_browser_constructor_rest E (createUUID E (uuids w))
                  (next_loc w) (constructed E src0 s e st w)) as (Hr & Hh & _).
    assert (Hreg : registered (constructed E src0 s e st w) (next_loc w)
                     (fresh_handle (createUUID E (uuids w)) src0 s e st)).
    { split; simpl; apply lookup_insert_eq. }
    unfold loc in *. repeat split.
    + rewrite Hr. apply lookup_insert_eq.
    + destruct (Hh _ _ (proj1 Hreg)) as (m' & Hm' & Hid & _).
      exists m'. by split.
    + intros l. unfold bind.
      repeat case_match; simpl; try discriminate; unfold ret in *; congruence.
    + intros Hst He. by apply (browser_constructor_rest_returns _ _ _ _ _ Hreg).
  - rewrite native_new_MediaRec_run by done. simpl.
    repeat split.
    + unfold Native.get, registry_get. simpl. by rewrite lookup_insert_eq.
    + eexists. split; [apply lookup_insert_eq|done].
Qed.

Lemma constructed_handle_is_registered_witness :
  fst (Browser.new_MediaRec quiet (JStr "a.mp3") (Some 10) (Some 11) (Some 12) world0)
  = Ret 0
  /\ mediaObjects (browser_world quiet) !! "u" = Some 0
  /\ fst (Native.new_MediaRec quiet (JStr "a.mp3") (Some 10) (Some 11) (Some 12) world0)
  = Ret 0
  /\ Native.get "u" (native_world quiet) = (Ret (Handle 0), native_world quiet).
Proof.
  destruct (constructed_handle_is_registered quiet (JStr "a.mp3")
              (Some 10) (Some 11) (Some 12) world0) as [HB HN].
  destruct (HB eq_refl) as (H1 & _ & _ & H2).
  destruct (HN eq_refl) as (H3 & H4 & _).
  exact (conj (H2 (fun f t args _ => eq_refl) (fun f t args _ => eq_refl))
           (conj H1 (conj H3 H4))).
Defined.

(** C10. The standalone constructor, once its arguments pass the check:
    before it emits anything the new handle is in the registry under its
    identifier, with its cached duration and position both -1; it then
    dispatches a Starting state event for that identifier, during which no
    handle changes and the status callback given to the constructor, when
    there is one, is called with Starting; all of this is in the trace when
    the constructor ends. *)
Theorem constructor_announces_starting E src0 s e st w :
  checkArgs E "SFFF" src0 = None ->
  let uuid := createUUID E (uuids w) in
  let this := next_loc w in
  let w1 := constructed E src0 s e st w in
  let starting := EvStatus uuid (JNum MEDIA_STATE) (JNum MEDIA_STARTING)
                  :: calls st [JNum MEDIA_STARTING] in
  trace w1 = trace w
  /\ mediaObjects w1 !! uuid = Some this
  /\ (exists m, heap w1 !! this = Some m /\ statusCallback m = st
                /\ _duration m = JNum (-1) /\ _position m = JNum (-1))
  /\ Browser.new_MediaRec E src0 s e st w
     = (Browser.onStatus E uuid (JNum MEDIA_STATE) (JNum MEDIA_STARTING) ;;
        Browser.try_createNode E this ;;
        ret this) w1
  /\ (exists r, Browser.onStatus E uuid (JNum MEDIA_STATE) (JNum MEDIA_STARTING) w1
                = (r, log starting w1))
  /\ (exists t, trace (snd (Browser.new_MediaRec E src0 s e st w))
                = trace w ++ starting ++ t).
Proof.
  intros Hc uuid this w1 starting.
  assert (Hi : mediaObjects w1 !! uuid = Some this) by apply lookup_insert_eq.
  assert (Hl : heap w1 !! this = Some (fresh_handle uuid src0 s e st))
    by apply lookup_insert_eq.
  assert (Hs : exists r, Browser.onStatus E uuid (JNum MEDIA_STATE) (JNum MEDIA_STARTING) w1
                         = (r, log starting w1)).
  { rewrite (browser_onStatus_state _ _ _ this _ _ Hi Hl). simpl.
    destruct (call_outcome _ _ st _) as [[]|x]; by eexists. }
  split; [done|]. split; [done|]. split; [by eexists|].
  split; [by apply browser_new_MediaRec_run|]. split; [done|].
  rewrite browser_new_MediaRec_run by done. fold uuid this w1.
  destruct Hs as [r Hs]. unfold bind at 1. rewrite Hs.
  destruct r as [[]|x]; simpl.
  - pose proof (steady_try_createNode E this (log starting w1)) as (_ & _ & t & Ht).
    unfold bind. destruct (Browser.try_createNode E this (log starting w1)) as [[[]|x] w2];
      simpl in *; exists t; by rewrite Ht, <- app_assoc.
  - exists []. by rewrite app_nil_r.
Qed.

Lemma constructor_announces_starting_witness :
  exists t,
    trace (snd (Browser.new_MediaRec quiet (JStr "a.mp3") (Some 10) (Some 11) (Some 12) world0))
    = [] ++ [EvStatus "u" (JNum MEDIA_STATE) (JNum MEDIA_STARTING);
             EvCall 12 [JNum MEDIA_STARTING]] ++ t.
Proof.
  exact (proj2 (proj2 (proj2 (proj2 (proj2
    (constructor_announces_starting quiet (JStr "a.mp3") (Some 10) (Some 11) (Some 12)
       world0 eq_refl)))))).
Defined.

(** ** Release *)

(** A state event for an identifier the registry holds reaches the status
    callback of its handle. *)
Lemma browser_state_event_reaches E w i l m v :
  mediaObjects w !! i = Some l -> heap w !! l = Some m ->
  exists t, trace (snd (Browser.onStatus E i (JNum MEDIA_STATE) v w))
            = trace w ++ EvStatus i (JNum MEDIA_STATE) v
                :: calls (statusCallback m) [v] ++ t.
Proof.
  intros Hi Hl. rewrite (browser_onStatus_state _ _ _ l m) by done.
  destruct (call_outcome _ _ (statusCallback m) _) as [[]|x]; simpl.
  - destruct (strict_eq_num v MEDIA_STOPPED); simpl; [by eexists|].
    exists []. by rewrite app_nil_r.
  - exists []. by rewrite app_nil_r.
Qed.

Lemma native_state_event_reaches E w i l m v :
  mediaObjects w !! i = Some l -> heap w !! l = Some m ->
  exists t, trace (snd (Native.onStatus E i (JNum MEDIA_STATE) v w))
            = trace w ++ EvStatus i (JNum MEDIA_STATE) v
                :: calls (statusCallback m) [v] ++ t.
Proof.
  intros Hi Hl. rewrite (native_onStatus_state _ _ _ l m) by done.
  destruct (call_outcome _ _ (statusCallback m) _) as [[]|x]; simpl.
  - destruct (loose_eq_num _ v MEDIA_STOPPED); simpl; [by eexists|].
    exists []. by rewrite app_nil_r.
  - exists []. by rewrite app_nil_r.
Qed.

(** C8. [release()] on a registered handle returns and leaves the registry
    as it is.  In the standalone proxy it emits nothing and changes nothing
    but the [node] property of its handle, which it removes; in the
    executor-backed proxy it changes no handle and sends the [release]
    request.  In every world that evolves from there, a state event for the
    identifier still reaches the status callback of the handle. *)
Theorem release_keeps_registration E w this m :
  registered w this m ->
  (exists w',
     Browser.release E this w = (Ret JUndefined, w')
     /\ mediaObjects w' = mediaObjects w /\ trace w' = trace w
     /\ (forall l, l <> this -> heap w' !! l = heap w !! l)
     /\ (exists m', heap w' !! this = Some m' /\ node m' = None
                    /\ id m' = id m /\ src m' = src m
                    /\ successCallback m' = successCallback m
                    /\ errorCallback m' = errorCallback m
                    /\ statusCallback m' = statusCallback m
                    /\ _duration m' = _duration m /\ _position m' = _position m)
     /\ (forall w'' v, evolves w' w'' ->
           exists t, trace (snd (Browser.onStatus E (id m) (JNum MEDIA_STATE) v w''))
                     = trace w'' ++ EvStatus (id m) (JNum MEDIA_STATE) v
                         :: calls (statusCallback m) [v] ++ t))
  /\ (exists w',
     Native.release this w = (Ret JUndefined, w')
     /\ mediaObjects w' = mediaObjects w /\ heap w' = heap w
     /\ trace w' = trace w ++ [EvExec KNull (kont_of (errorCallback m)) "release"
                                 [JStr (id m)]]
     /\ (forall w'' v, evolves w' w'' ->
           exists t, trace (snd (Native.onStatus E (id m) (JNum MEDIA_STATE) v w''))
                     = trace w'' ++ EvStatus (id m) (JNum MEDIA_STATE) v
                         :: calls (statusCallback m) [v] ++ t)).
Proof.
  intros [Hl Hi]. split.
  - exists (store this (set_node None m) w). split.
    { unfold Browser.release, try_catch, bind, update. by rewrite Hl. }
    split; [done|]. split; [done|]. split.
    { intros l Hne. simpl. by rewrite lookup_insert_ne. }
    split.
    { exists (set_node None m). simpl. by rewrite lookup_insert_eq. }
    intros w'' v (Hr & Hh & _).
    destruct (Hh this (set_node None m)) as (m'' & Hl'' & Hid & _ & _ & _ & Hst).
    { simpl. apply lookup_insert_eq. }
    simpl in Hid, Hst. rewrite <- Hst.
    apply (browser_state_event_reaches _ _ _ this); [|done].
    rewrite Hr. done.
  - exists (log [EvExec KNull (kont_of (errorCallback m)) "release" [JStr (id m)]] w).
    split.
    { unfold Native.release. rewrite (bind_deref _ _ _ m) by done. reflexivity. }
    split; [done|]. split; [done|]. split; [done|].
    intros w'' v (Hr & Hh & _).
    destruct (Hh this m) as (m'' & Hl'' & Hid & _ & _ & _ & Hst); [done|].
    rewrite <- Hst.
    apply (native_state_event_reaches _ _ _ this); [|done].
    rewrite Hr. done.
Qed.

Lemma release_keeps_registration_witness :
  (exists t, trace (snd (Browser.onStatus quiet "u" (JNum MEDIA_STATE) (JNum MEDIA_RUNNING)
                           (snd (Browser.release quiet 0 (browser_world quiet)))))
             = trace (snd (Browser.release quiet 0 (browser_world quiet)))
               ++ EvStatus "u" (JNum MEDIA_STATE) (JNum MEDIA_RUNNING)
                  :: [EvCall 12 [JNum MEDIA_RUNNING]] ++ t)
  /\ mediaObjects (snd (Native.release 0 (native_world quiet))) !! "u" = Some 0.
Proof.
  split.
  - destruct (release_keeps_registration quiet (browser_world quiet) 0 browser_handle
                (conj eq_refl eq_refl)) as [(w' & Hrun & _ & _ & _ & _ & H) _].
    rewrite Hrun. simpl. apply (H w' (JNum MEDIA_RUNNING)). apply evolves_refl.
  - destruct (release_keeps_registration quiet (native_world quiet) 0 native_handle
                (conj eq_refl eq_refl)) as [_ (w' & Hrun & Hr & _)].
    rewrite Hrun. simpl. rewrite Hr. reflexivity.
Defined.

(** ** Stop *)

Lemma failures_reported_nil E i t0 : failures_reported E i t0 [].
Proof. intros pre ev post e H. by destruct pre. Qed.

Lemma failures_reported_cons E i t0 ev t :
  (forall e, raised E t0 ev = Some e -> In (EvStatus i (JNum MEDIA_ERROR) e) t) ->
  failures_reported E i (t0 ++ [ev]) t ->
  failures_reported E i t0 (ev :: t).
Proof.
  intros Hev Ht pre ev' post e Heq Hr. destruct pre as [|x pre]; simpl in Heq.
  - injection Heq as <- <-. rewrite app_nil_r in Hr. by apply Hev.
  - injection Heq as <- ->. apply (Ht pre ev' post e); [done|].
    by rewrite <- app_assoc.
Qed.

Lemma failures_reported_app E i t0 t1 t2 :
  failures_reported E i t0 t1 ->
  failures_reported E i (t0 ++ t1) t2 ->
  failures_reported E i t0 (t1 ++ t2).
Proof.
  revert t0. induction t1 as [|ev t1 IH]; intros t0 H1 H2; simpl.
  - by rewrite app_nil_r in H2.
  - apply failures_reported_cons.
    + intros e Hr. apply in_or_app. left.
      apply (H1 [] ev t1 e); [done|]. by rewrite app_nil_r.
    + apply IH.
      * intros pre ev' post e Heq Hr.
        apply (H1 (ev :: pre) ev' post e); [by rewrite Heq|].
        by rewrite <- app_assoc in Hr.
      * by rewrite <- app_assoc.
Qed.

(** The events of an error status event are themselves free of failures
    when the error callback never throws. *)
Lemma failures_reported_error_events E t0 m e :
  never_throws E (errorCallback m) ->
  failures_reported E (id m) t0 (error_events m e).
Proof.
  intros Hq. unfold error_events. apply failures_reported_cons; [done|].
  destruct (errorCallback m) as [f|] eqn:Hf; simpl; [|apply failures_reported_nil].
  apply failures_reported_cons; [|apply failures_reported_nil].
  intros x Hr. simpl in Hr. by rewrite (Hq f _ _ eq_refl) in Hr.
Qed.

Lemma no_node_in_error_events m e : filter is_node_event (error_events m e) = [].
Proof. unfold error_events. by destruct (errorCallback m). Qed.

Lemma registered_log t w this m : registered w this m -> registered (log t w) this m.
Proof. by intros [??]. Qed.

(** A state event dispatched under a handler that reports what is thrown:
    [try { onStatus(id, MEDIA_STATE, v) } catch (err) { onStatus(id,
    MEDIA_ERROR, err) }]. *)
Lemma browser_guarded_state_event E w this m (q : Q) :
  registered w this m -> never_throws E (errorCallback m) ->
  exists t,
    try_catch
      (Browser.onStatus_this E this (JNum MEDIA_STATE) (JNum q) ;; ret JUndefined)
      (fun err => Browser.onStatus_this E this (JNum MEDIA_ERROR) err ;; ret JUndefined) w
    = (Ret JUndefined, log (EvStatus (id m) (JNum MEDIA_STATE) (JNum q) :: t) w)
    /\ filter is_node_event t = []
    /\ failures_reported E (id m) (trace w) (EvStatus (id m) (JNum MEDIA_STATE) (JNum q) :: t).
Proof.
  intros Hreg Hq. pose proof Hreg as [Hl Hi].
  unfold try_catch, bind.
  rewrite (browser_onStatus_this _ _ _ m) by done.
  rewrite (browser_onStatus_state _ _ _ this m) by done.
  assert (Hrep : forall t x,
    failures_reported E (id m) (trace w ++ t) (error_events m x))
    by (intros; by apply failures_reported_error_events).
  destruct (statusCallback m) as [f|] eqn:Hf; simpl.
  - destruct (call_fn E _ f [JNum q]) as [x|] eqn:Hcall.
    + eexists. split.
      { rewrite (browser_report_error _ _ _ m x (registered_log _ _ _ _ Hreg) Hq).
        by rewrite log_log. }
      split; [simpl; apply no_node_in_error_events|].
      apply failures_reported_cons; [done|].
      apply failures_reported_cons.
      { intros e Hr. simpl in Hr. rewrite Hcall in Hr. injection Hr as <-. by left. }
      rewrite <- app_assoc. apply Hrep.
    + destruct (Qeq_bool q MEDIA_STOPPED).
      * destruct (successCallback m) as [g|] eqn:Hg; simpl.
        -- destruct (call_fn E _ g []) as [x|] eqn:Hcall2.
           ++ eexists. split.
              { rewrite (browser_report_error _ _ _ m x (registered_log _ _ _ _ Hreg) Hq).
                by rewrite log_log. }
              split; [simpl; apply no_node_in_error_events|].
              apply failures_reported_cons; [done|].
              apply failures_reported_cons.
              { intros e Hr. simpl in Hr. rewrite Hcall in Hr. discriminate. }
              apply failures_reported_cons.
              { intros e Hr. simpl in Hr. rewrite <- app_assoc in Hr. simpl in Hr.
                rewrite Hcall2 in Hr. injection Hr as <-. by left. }
              rewrite <- !app_assoc. apply Hrep.
           ++ eexists. split; [reflexivity|]. split; [done|].
              apply failures_reported_cons; [done|].
              apply failures_reported_cons.
              { intros e Hr. simpl in Hr. rewrite Hcall in Hr. discriminate. }
              apply failures_reported_cons; [|apply failures_reported_nil].
              intros e Hr. simpl in Hr. rewrite <- app_assoc in Hr. simpl in Hr.
              rewrite Hcall2 in Hr. discriminate.
        -- eexists. split; [reflexivity|]. split; [done|].
           apply failures_reported_cons; [done|].
           apply failures_reported_cons; [|apply failures_reported_nil].
           intros e Hr. simpl in Hr. rewrite Hcall in Hr. discriminate.
      * eexists. split; [reflexivity|]. split; [done|].
        apply failures_reported_cons; [done|].
        apply failures_reported_cons; [|apply failures_reported_nil].
        intros e Hr. simpl in Hr. rewrite Hcall in Hr. discriminate.
  - destruct (Qeq_bool q MEDIA_STOPPED).
    + destruct (successCallback m) as [g|] eqn:Hg; simpl.
      * destruct (call_fn E _ g []) as [x|] eqn:Hcall2.
        -- eexists. split.
           { rewrite (browser_report_error _ _ _ m x (registered_log _ _ _ _ Hreg) Hq).
             by rewrite log_log. }
           split; [simpl; apply no_node_in_error_events|].
           apply failures_reported_cons; [done|].
           apply failures_reported_cons.
           { intros e Hr. simpl in Hr. rewrite Hcall2 in Hr. injection Hr as <-. by left. }
           rewrite <- app_assoc. apply Hrep.
        -- eexists. split; [reflexivity|]. split; [done|].
           apply failures_reported_cons; [done|].
           apply failures_reported_cons; [|apply failures_reported_nil].
           intros e Hr. simpl in Hr. rewrite Hcall2 in Hr. discriminate.
      * eexists. split; [reflexivity|]. split; [done|].
        apply failures_reported_cons; [done|apply failures_reported_nil].
    + eexists. split; [reflexivity|]. split; [done|].
      apply failures_reported_cons; [done|apply failures_reported_nil].
Qed.

Lemma try_catch_bind_ret {A B} (c : M A) (k : A -> M B) h w a w1 :
  c w = (Ret a, w1) -> try_catch (bind c k) h w = try_catch (k a) h w1.
Proof. intros H. unfold try_catch, bind. by rewrite H. Qed.

Lemma try_catch_bind_throw {A B} (c : M A) (k : A -> M B) h w e w1 :
  c w = (Throw e, w1) -> try_catch (bind c k) h w = h e w1.
Proof. intros H. unfold try_catch, bind. by rewrite H. Qed.

Lemma this_node_do_run E w this m n op :
  heap w !! this = Some m -> node m = Some n ->
  this_node_do E this op w
  = (match audio E (trace w) n op with
     | Returns v => Ret v
     | Throws e => Throw e
     end, log [EvNode n op] w).
Proof.
  intros Hl Hn. unfold this_node_do. rewrite (bind_deref _ _ _ m) by done.
  rewrite Hn. unfold node_do. by destruct (audio E (trace w) n op).
Qed.

Lemma div1000_zero f : div1000 f (JNum 0) = JNum 0.
Proof. reflexivity. Qed.

(** [pause()] on a registered handle with an element, when the error
    callback never throws: it returns; the only operation on the element
    is [pause()]; whatever fails is reported; a failure of [node.pause()]
    is followed by its error status event and by nothing else. *)
Lemma browser_pause_run E w this m n :
  registered w this m -> node m = Some n -> never_throws E (errorCallback m) ->
  exists t,
    Browser.pause E this w = (Ret JUndefined, log (EvNode n OpPause :: t) w)
    /\ filter is_node_event t = []
    /\ failures_reported E (id m) (trace w) (EvNode n OpPause :: t)
    /\ (forall e, audio E (trace w) n OpPause = Throws e -> t = error_events m e).
Proof.
  intros Hreg Hn Hq. pose proof Hreg as [Hl Hi]. unfold Browser.pause.
  pose proof (this_node_do_run E w this m n OpPause Hl Hn) as Hrun.
  destruct (audio E (trace w) n OpPause) as [v|e] eqn:Ha.
  - destruct (browser_guarded_state_event E (log [EvNode n OpPause] w) this m
                MEDIA_PAUSED (registered_log _ _ _ _ Hreg) Hq) as (t & Ht & Hf & Hrep).
    eexists. split.
    { rewrite (try_catch_bind_ret _ _ _ _ _ _ Hrun), Ht. by rewrite log_log. }
    split; [done|]. split; [|done].
    apply failures_reported_cons; [|done].
    intros e Hr. simpl in Hr. by rewrite Ha in Hr.
  - exists (error_events m e). split.
    { rewrite (try_catch_bind_throw _ _ _ _ _ _ Hrun). unfold bind.
      rewrite (browser_report_error _ _ _ m e (registered_log _ _ _ _ Hreg) Hq).
      by rewrite log_log. }
    split; [apply no_node_in_error_events|]. split.
    + apply failures_reported_cons.
      * intros x Hr. simpl in Hr. rewrite Ha in Hr. injection Hr as <-. by left.
      * by apply failures_reported_error_events.
    + intros x Hx. by injection Hx as <-.
Qed.

(** [seekTo(0)] likewise: the only operation on the element is the
    assignment of 0 to [currentTime]. *)
Lemma browser_seekTo_zero_run E w this m n :
  registered w this m -> node m = Some n -> never_throws E (errorCallback m) ->
  exists t,
    Browser.seekTo E this (JNum 0) w
    = (Ret JUndefined, log (EvNode n (OpSetCurrentTime (JNum 0)) :: t) w)
    /\ filter is_node_event t = []
    /\ failures_reported E (id m) (trace w) (EvNode n (OpSetCurrentTime (JNum 0)) :: t)
    /\ (forall e, audio E (trace w) n (OpSetCurrentTime (JNum 0)) = Throws e ->
        t = error_events m e).
Proof.
  intros Hreg Hn Hq. pose proof Hreg as [Hl Hi]. unfold Browser.seekTo.
  rewrite div1000_zero.
  pose proof (this_node_do_run E w this m n (OpSetCurrentTime (JNum 0)) Hl Hn) as Hrun.
  destruct (audio E (trace w) n (OpSetCurrentTime (JNum 0))) as [v|e] eqn:Ha.
  - exists []. split.
    { by rewrite (try_catch_bind_ret _ _ _ _ _ _ Hrun). }
    split; [done|]. split; [|done].
    apply failures_reported_cons; [|apply failures_reported_nil].
    intros e Hr. simpl in Hr. by rewrite Ha in Hr.
  - exists (error_events m e). split.
    { rewrite (try_catch_bind_throw _ _ _ _ _ _ Hrun). unfold bind.
      rewrite (browser_report_error _ _ _ m e (registered_log _ _ _ _ Hreg) Hq).
      by rewrite log_log. }
    split; [apply no_node_in_error_events|]. split.
    + apply failures_reported_cons.
      * intros x Hr. simpl in Hr. rewrite Ha in Hr. injection Hr as <-. by left.
      * by apply failures_reported_error_events.
    + intros x Hx. by injection Hx as <-.
Qed.

Lemma this_node_do_no_node E w this m op :
  heap w !! this = Some m -> node m = None ->
  this_node_do E this op w = (Throw (TypeError "node"), w).
Proof.
  intros Hl Hn. unfold this_node_do. rewrite (bind_deref _ _ _ m) by done.
  by rewrite Hn.
Qed.

(** Without an element, [pause()] and [seekTo()] report the [TypeError] of
    the access to [this.node] and return. *)
Lemma browser_pause_no_node E w this m :
  registered w this m -> node m = None -> never_throws E (errorCallback m) ->
  Browser.pause E this w
  = (Ret JUndefined, log (error_events m (TypeError "node")) w).
Proof.
  intros Hreg Hn Hq. unfold Browser.pause.
  rewrite (try_catch_bind_throw _ _ _ _ _ _
             (this_node_do_no_node E w this m OpPause (proj1 Hreg) Hn)).
  unfold bind. by rewrite (browser_report_error _ _ _ m _ Hreg Hq).
Qed.

Lemma browser_seekTo_no_node E w this m v :
  registered w this m -> node m = None -> never_throws E (errorCallback m) ->
  Browser.seekTo E this v w
  = (Ret JUndefined, log (error_events m (TypeError "node")) w).
Proof.
  intros Hreg Hn Hq. unfold Browser.seekTo.
  rewrite (try_catch_bind_throw _ _ _ _ _ _
             (this_node_do_no_node E w this m _ (proj1 Hreg) Hn)).
  unfold bind. by rewrite (browser_report_error _ _ _ m _ Hreg Hq).
Qed.

(** C1, as amended.  [stop()] on a registered handle whose error callback
    never throws returns normally.  With an element: on the element it
    performs [pause()] and then the assignment of 0 to [currentTime], and
    nothing else; it then dispatches the Stopped state event; every
    exception raised on the way is the value of a later error status event;
    and when [node.pause()] or the assignment throws, what follows it is
    that error status event, after which [stop()] goes on with the next
    step.  Without an element (after [release()]): the two failed accesses
    to it are each reported by an error status event, and the Stopped state
    event is dispatched all the same. *)
Theorem stop_reports_and_continues E w this m :
  registered w this m -> never_throws E (errorCallback m) ->
  (forall n, node m = Some n ->
   exists t1 t2 t3,
     let steps :=
       EvNode n OpPause :: t1
       ++ EvNode n (OpSetCurrentTime (JNum 0)) :: t2
       ++ EvStatus (id m) (JNum MEDIA_STATE) (JNum MEDIA_STOPPED) :: t3 in
     Browser.stop E this w = (Ret JUndefined, log steps w)
     /\ filter is_node_event steps
        = [EvNode n OpPause; EvNode n (OpSetCurrentTime (JNum 0))]
     /\ failures_reported E (id m) (trace w) steps
     /\ (forall e, audio E (trace w) n OpPause = Throws e -> t1 = error_events m e)
     /\ (forall e, audio E (trace w ++ EvNode n OpPause :: t1) n
                     (OpSetCurrentTime (JNum 0)) = Throws e ->
         t2 = error_events m e))
  /\ (node m = None ->
      exists t3,
        let steps :=
          error_events m (TypeError "node")
          ++ error_events m (TypeError "node")
          ++ EvStatus (id m) (JNum MEDIA_STATE) (JNum MEDIA_STOPPED) :: t3 in
        Browser.stop E this w = (Ret JUndefined, log steps w)
        /\ filter is_node_event steps = []
        /\ failures_reported E (id m) (trace w) steps).
Proof.
  intros Hreg Hq. split.
  - intros n Hn.
    destruct (browser_pause_run E w this m n Hreg Hn Hq) as (t1 & Hp & Hf1 & Hr1 & He1).
    set (w1 := log (EvNode n OpPause :: t1) w) in *.
    assert (Hreg1 : registered w1 this m) by by apply registered_log.
    destruct (browser_seekTo_zero_run E w1 this m n Hreg1 Hn Hq)
      as (t2 & Hs & Hf2 & Hr2 & He2).
    set (w2 := log (EvNode n (OpSetCurrentTime (JNum 0)) :: t2) w1) in *.
    assert (Hreg2 : registered w2 this m) by by apply registered_log.
    destruct (browser_guarded_state_event E w2 this m MEDIA_STOPPED Hreg2 Hq)
      as (t3 & Hg & Hf3 & Hr3).
    exists t1, t2, t3. simpl. split.
    { unfold Browser.stop.
      rewrite (try_catch_bind_ret _ _ _ _ _ _ Hp).
      rewrite (try_catch_bind_ret _ _ _ _ _ _ Hs).
      rewrite Hg. unfold w2, w1. rewrite !log_log. by simpl. }
    split.
    { rewrite !filter_cons, !filter_app, !filter_cons. simpl.
      rewrite !filter_app, !filter_cons in *. simpl.
      unfold filter in *. by rewrite Hf1, Hf2, Hf3. }
    split; [|done].
    apply (failures_reported_app E (id m) (trace w) (EvNode n OpPause :: t1)); [done|].
    apply (failures_reported_app E (id m) _ (EvNode n (OpSetCurrentTime (JNum 0)) :: t2));
      [done|].
    exact Hr3.
  - intros Hn.
    pose proof (browser_pause_no_node E w this m Hreg Hn Hq) as Hp.
    set (w1 := log (error_events m (TypeError "node")) w) in *.
    assert (Hreg1 : registered w1 this m) by by apply registered_log.
    pose proof (browser_seekTo_no_node E w1 this m (JNum 0) Hreg1 Hn Hq) as Hs.
    set (w2 := log (error_events m (TypeError "node")) w1) in *.
    assert (Hreg2 : registered w2 this m) by by apply registered_log.
    destruct (browser_guarded_state_event E w2 this m MEDIA_STOPPED Hreg2 Hq)
      as (t3 & Hg & Hf3 & Hr3).
    exists t3. cbv zeta. split.
    { unfold Browser.stop.
      rewrite (try_catch_bind_ret _ _ _ _ _ _ Hp).
      rewrite (try_catch_bind_ret _ _ _ _ _ _ Hs).
      rewrite Hg. unfold w2, w1. by rewrite !log_log. }
    split.
    { rewrite !filter_app, filter_cons. simpl.
      pose proof (no_node_in_error_events m (TypeError "node")) as Hf.
      unfold filter in *. by rewrite Hf, Hf3. }
    apply failures_reported_app; [by apply failures_reported_error_events|].
    apply failures_reported_app; [by apply failures_reported_error_events|].
    exact Hr3.
Qed.

Lemma stop_reports_and_continues_witness :
  exists t1 t2 t3,
    let steps :=
      EvNode 0 OpPause :: t1
      ++ EvNode 0 (OpSetCurrentTime (JNum 0)) :: t2
      ++ EvStatus "u" (JNum MEDIA_STATE) (JNum MEDIA_STOPPED) :: t3 in
    Browser.stop failing_pause 0 (browser_world failing_pause)
    = (Ret JUndefined, log steps (browser_world failing_pause))
    /\ filter is_node_event steps
       = [EvNode 0 OpPause; EvNode 0 (OpSetCurrentTime (JNum 0))]
    /\ failures_reported failing_pause "u" (trace (browser_world failing_pause)) steps
    /\ (forall e, audio failing_pause (trace (browser_world failing_pause)) 0 OpPause
                  = Throws e -> t1 = error_events browser_handle e)
    /\ (forall e, audio failing_pause
                    (trace (browser_world failing_pause) ++ EvNode 0 OpPause :: t1) 0
                    (OpSetCurrentTime (JNum 0)) = Throws e ->
        t2 = error_events browser_handle e).
Proof.
  exact (proj1 (stop_reports_and_continues failing_pause (browser_world failing_pause) 0
                  browser_handle (conj eq_refl eq_refl)
                  (fun f t args _ => eq_refl)) 0 eq_refl).
Defined.

(** [stop()] where [node.pause()] throws: the whole run. *)
Lemma stop_with_failing_pause_run :
  audio failing_pause (trace (browser_world failing_pause)) 0 OpPause
  = Throws (JStr "boom")
  /\ Browser.stop failing_pause 0 (browser_world failing_pause)
     = (Ret JUndefined,
        log [EvNode 0 OpPause;
             EvStatus "u" (JNum MEDIA_ERROR) (JStr "boom");
             EvCall 11 [JStr "boom"];
             EvNode 0 (OpSetCurrentTime (JNum 0));
             EvStatus "u" (JNum MEDIA_STATE) (JNum MEDIA_STOPPED);
             EvCall 12 [JNum MEDIA_STOPPED];
             EvCall 10 []] (browser_world failing_pause)).
Proof. split; reflexivity. Qed.

(** C1, as stated, fails: after a failed [node.pause()], [stop()] still
    assigns 0 to [currentTime] and still dispatches the Stopped event. *)
Lemma stop_goes_on_after_failed_pause : ~ stop_halts_when_pause_fails.
Proof.
  intros H.
  destruct (H failing_pause (browser_world failing_pause) 0 browser_handle 0
              (JStr "boom")
              [EvNode 0 OpPause;
               EvStatus "u" (JNum MEDIA_ERROR) (JStr "boom");
               EvCall 11 [JStr "boom"];
               EvNode 0 (OpSetCurrentTime (JNum 0));
               EvStatus "u" (JNum MEDIA_STATE) (JNum MEDIA_STOPPED);
               EvCall 12 [JNum MEDIA_STOPPED];
               EvCall 10 []]
              (conj eq_refl eq_refl) eq_refl eq_refl) as (_ & Hseek & _).
  - exact (f_equal (fun r => trace (snd r)) (proj2 stop_with_failing_pause_run)).
  - apply Hseek. simpl. tauto.
Qed.

(** ** Position queries *)

(** C4, as amended.  For a registered handle: in the standalone proxy,
    when the element answers the read of [currentTime] with the number [q],
    [getCurrentPosition] emits a position status event with [q], which
    makes [q] the cached position, then calls [success] with [q], and calls
    [fail] only with what [success] throws; when the read throws [e], or
    there is no element to read from, it only calls [fail] with the error.
    In the executor-backed proxy the call only
    sends the request; when the executor answers it with [p], [p] becomes
    the cached position and [success] is called with [p], with no status
    event; when the executor reports [e], [fail] is called with [e]. *)
Theorem getCurrentPosition_outcomes E w this m success fail :
  registered w this m ->
  (forall n q, node m = Some n ->
     audio E (trace w) n OpGetCurrentTime = Returns (JNum q) ->
     let before := [EvNode n OpGetCurrentTime;
                    EvStatus (id m) (JNum MEDIA_POSITION) (JNum q)] in
     snd (Browser.getCurrentPosition E this (Some success) (Some fail) w)
     = log (before ++ EvCall success [JNum q]
              :: match call_fn E (trace w ++ before) success [JNum q] with
                 | None => []
                 | Some x => [EvCall fail [x]]
                 end)
         (store this (set_position (JNum q) m) w))
  /\ (forall n e, node m = Some n ->
      audio E (trace w) n OpGetCurrentTime = Throws e ->
      snd (Browser.getCurrentPosition E this (Some success) (Some fail) w)
      = log [EvNode n OpGetCurrentTime; EvCall fail [e]] w)
  /\ (node m = None ->
      snd (Browser.getCurrentPosition E this (Some success) (Some fail) w)
      = log [EvCall fail [TypeError "node"]] w)
  /\ Native.getCurrentPosition this (Some success) (Some fail) w
     = (Ret JUndefined,
        log [EvExec (KPositionWin this (Some success)) (KFn fail)
               "getCurrentPositionAudio" [JStr (id m)]] w)
  /\ (forall p,
      snd (Native.resolve E (KPositionWin this (Some success)) p w)
      = log [EvCall success [p]] (store this (set_position p m) w))
  /\ (forall e, snd (Native.resolve E (KFn fail) e w) = log [EvCall fail [e]] w).
Proof.
  intros [Hl Hi]. repeat split.
  - intros n q Hn Ha. unfold Browser.getCurrentPosition.
    pose proof (this_node_do_run E w this m n OpGetCurrentTime Hl Hn) as Hrun.
    rewrite Ha in Hrun.
    rewrite (try_catch_bind_ret _ _ _ _ _ _ Hrun).
    unfold try_catch, bind.
    rewrite (browser_onStatus_this _ _ _ m) by done.
    rewrite (browser_onStatus_position _ _ _ this m) by done.
    simpl. unfold call. simpl. rewrite <- !app_assoc. simpl.
    destruct (call_fn E _ success [JNum q]) as [x|]; simpl.
    + destruct (call_fn E _ fail [x]); unfold log, store; simpl;
        by rewrite <- !app_assoc.
    + unfold log, store; simpl. by rewrite <- !app_assoc.
  - intros n e Hn Ha. unfold Browser.getCurrentPosition.
    pose proof (this_node_do_run E w this m n OpGetCurrentTime Hl Hn) as Hrun.
    rewrite Ha in Hrun.
    rewrite (try_catch_bind_throw _ _ _ _ _ _ Hrun).
    unfold bind, call_param, call. simpl.
    destruct (call_fn E _ fail [e]); simpl; by rewrite log_log.
  - intros Hn. unfold Browser.getCurrentPosition.
    rewrite (try_catch_bind_throw _ _ _ _ _ _
               (this_node_do_no_node E w this m OpGetCurrentTime Hl Hn)).
    unfold bind, call_param, call. simpl.
    by destruct (call_fn E _ fail [TypeError "node"]).
  - unfold Native.getCurrentPosition. by rewrite (bind_deref _ _ _ m).
  - intros p. unfold Native.resolve. rewrite (bind_update _ _ _ _ m) by done.
    unfold call_param, call. by destruct (call_fn E _ success [p]).
  - intros e. unfold Native.resolve, call. by destruct (call_fn E _ fail [e]).
Qed.

Lemma getCurrentPosition_outcomes_witness :
  snd (Browser.getCurrentPosition at_4200 0 (Some 20) (Some 21) (browser_world at_4200))
  = log [EvNode 0 OpGetCurrentTime;
         EvStatus "u" (JNum MEDIA_POSITION) (JNum 4200);
         EvCall 20 [JNum 4200]]
      (store 0 (set_position (JNum 4200) browser_handle) (browser_world at_4200))
  /\ snd (Native.resolve quiet (KPositionWin 0 (Some 20)) (JNum 4200) (native_world quiet))
  = log [EvCall 20 [JNum 4200]]
      (store 0 (set_position (JNum 4200) native_handle) (native_world quiet)).
Proof.
  split.
  - exact (proj1 (getCurrentPosition_outcomes at_4200 (browser_world at_4200) 0
                    browser_handle 20 21 (conj eq_refl eq_refl)) 0 4200%Q eq_refl eq_refl).
  - exact (proj1 (proj2 (proj2 (proj2 (proj2
             (getCurrentPosition_outcomes quiet (native_world quiet) 0
                native_handle 20 21 (conj eq_refl eq_refl)))))) (JNum 4200)).
Defined.

(** The executor answers a position request with 4200: the whole run. *)
Lemma position_answer_run :
  snd (Native.resolve quiet (KPositionWin 0 (Some 20)) (JNum 4200) (native_world quiet))
  = log [EvCall 20 [JNum 4200]]
      (store 0 (set_position (JNum 4200) native_handle) (native_world quiet)).
Proof. reflexivity. Qed.

(** C4, as stated, fails: in the executor-backed proxy the answer to a
    position request is stored and handed to [success], and no position
    status event is emitted. *)
Lemma position_answer_without_status_event : ~ position_answer_emits_status_event.
Proof.
  intros H.
  destruct (H quiet (native_world quiet) 0 native_handle 20 (JNum 4200)
              [EvCall 20 [JNum 4200]] (conj eq_refl eq_refl)) as [_ Hev].
  - exact (f_equal trace position_answer_run).
  - simpl in Hev. destruct Hev as [Hev|[]]. discriminate Hev.
Qed.

(** ** Recording *)

(** [startRecord()] and [stopRecord()] of the standalone proxy report
    ["Not supported"] through an error status event. *)
Lemma browser_record_not_supported E w this m :
  registered w this m ->
  snd (invoke0 (Browser.prototype E) this "startRecord" w)
  = log (error_events m (JStr "Not supported")) w
  /\ snd (invoke0 (Browser.prototype E) this "stopRecord" w)
  = log (error_events m (JStr "Not supported")) w.
Proof.
  intros [Hl Hi]. unfold invoke0. simpl.
  unfold Browser.startRecord, Browser.stopRecord, bind.
  rewrite (browser_onStatus_this _ _ _ m) by done.
  rewrite (browser_onStatus_error _ _ _ this m) by done.
  by destruct (call_outcome _ _ _ _) as [[]|x].
Qed.

(** The executor-backed proxy defines all five recording methods. *)
Lemma native_recording_methods E :
  Native.prototype E "startRecord" = Some (Method0 Native.startRecord)
  /\ Native.prototype E "stopRecord" = Some (Method0 Native.stopRecord)
  /\ Native.prototype E "pauseRecord" = Some (Method0 Native.pauseRecord)
  /\ Native.prototype E "resumeRecord" = Some (Method0 Native.resumeRecord)
  /\ Native.prototype E "startRecordWithCompression"
     = Some (Method1 Native.startRecordWithCompression).
Proof. by repeat split. Qed.

(** C7 fails on the standalone proxy: its prototype has no [pauseRecord],
    no [resumeRecord] and no [startRecordWithCompression]; calling one of
    them on a handle raises a [TypeError] and leaves the world as it was,
    so that nothing is dispatched and no error callback runs. *)
Theorem browser_recording_methods_missing E this options w :
  invoke0 (Browser.prototype E) this "pauseRecord" w
  = (Throw (TypeError "pauseRecord"), w)
  /\ invoke0 (Browser.prototype E) this "resumeRecord" w
  = (Throw (TypeError "resumeRecord"), w)
  /\ invoke1 (Browser.prototype E) this "startRecordWithCompression" options w
  = (Throw (TypeError "startRecordWithCompression"), w).
Proof. by repeat split. Qed.

(** ** More on the dispatcher *)

Lemma native_onStatus_error E w i l m e :
  mediaObjects w !! i = Some l -> heap w !! l = Some m ->
  Native.onStatus E i (JNum MEDIA_ERROR) e w
  = (call_outcome E (trace w ++ [EvStatus i (JNum MEDIA_ERROR) e])
       (errorCallback m) [e],
     log (EvStatus i (JNum MEDIA_ERROR) e :: calls (errorCallback m) [e]) w).
Proof.
  intros Hi Hl. unfold Native.onStatus.
  rewrite bind_emit, bind_registry_get. simpl. rewrite Hi. simpl.
  rewrite (bind_deref _ _ _ m) by done.
  by rewrite call_if_present_run, log_log.
Qed.

Lemma native_onStatus_duration E w i l m v :
  mediaObjects w !! i = Some l -> heap w !! l = Some m ->
  Native.onStatus E i (JNum MEDIA_DURATION) v w
  = (Ret tt, store l (set_duration v m)
               (log [EvStatus i (JNum MEDIA_DURATION) v] w)).
Proof.
  intros Hi Hl. unfold Native.onStatus.
  rewrite bind_emit, bind_registry_get. simpl. rewrite Hi. simpl.
  unfold update. simpl. by rewrite Hl.
Qed.

Lemma native_onStatus_position E w i l m v :
  mediaObjects w !! i = Some l -> heap w !! l = Some m ->
  Native.onStatus E i (JNum MEDIA_POSITION) v w
  = (Ret tt, store l (set_position (to_number (str_to_number E) v) m)
               (log [EvStatus i (JNum MEDIA_POSITION) v] w)).
Proof.
  intros Hi Hl. unfold Native.onStatus.
  rewrite bind_emit, bind_registry_get. simpl. rewrite Hi. simpl.
  unfold update. simpl. by rewrite Hl.
Qed.

(** X1. A duration event for a registered identifier followed by
    [getDuration()] on its handle: the call returns the value of the event
    exactly as it came, the handle differs only in its cached duration, and
    [getDuration()] itself adds nothing to the trace.  Both proxies. *)
Theorem duration_event_then_getDuration E w i l m v :
  mediaObjects w !! i = Some l -> heap w !! l = Some m ->
  let w' := store l (set_duration v m) (log [EvStatus i (JNum MEDIA_DURATION) v] w) in
  (Browser.onStatus E i (JNum MEDIA_DURATION) v ;; Browser.getDuration l) w = (Ret v, w')
  /\ (Native.onStatus E i (JNum MEDIA_DURATION) v ;; Native.getDuration l) w = (Ret v, w').
Proof.
  intros Hi Hl. simpl. split.
  - unfold bind at 1. rewrite (browser_onStatus_duration _ _ _ l m) by done.
    unfold Browser.getDuration, bind, deref, ret. simpl. by rewrite lookup_insert_eq.
  - unfold bind at 1. rewrite (native_onStatus_duration _ _ _ l m) by done.
    unfold Native.getDuration, bind, deref, ret. simpl. by rewrite lookup_insert_eq.
Qed.

Lemma duration_event_then_getDuration_witness :
  fst ((Browser.onStatus quiet "u" (JNum MEDIA_DURATION) (JNum 30) ;;
        Browser.getDuration 0) (browser_world quiet)) = Ret (JNum 30)
  /\ fst ((Native.onStatus quiet "u" (JNum MEDIA_DURATION) (JStr "long") ;;
           Native.getDuration 0) (native_world quiet)) = Ret (JStr "long").
Proof.
  split.
  - exact (f_equal fst (proj1 (duration_event_then_getDuration quiet
             (browser_world quiet) "u" 0 browser_handle (JNum 30) eq_refl eq_refl))).
  - exact (f_equal fst (proj2 (duration_event_then_getDuration quiet
             (native_world quiet) "u" 0 native_handle (JStr "long") eq_refl eq_refl))).
Defined.

(** X2. A status event whose kind is none of the four known numbers, for
    an identifier the registry holds: the dispatcher returns, writes the
    [Unhandled] diagnostic where [console.error] exists, calls no callback
    and changes no handle.  The kinds are compared with [===], so the
    string ["1"] is such a kind.  Both proxies. *)
Theorem unhandled_kind_logged E w i l mt v :
  mediaObjects w !! i = Some l ->
  strict_eq_num mt MEDIA_STATE = false ->
  strict_eq_num mt MEDIA_DURATION = false ->
  strict_eq_num mt MEDIA_ERROR = false ->
  strict_eq_num mt MEDIA_POSITION = false ->
  let w' := log (EvStatus i mt v
                 :: diagnostic E "Unhandled MediaRec.onStatus :: " mt) w in
  Browser.onStatus E i mt v w = (Ret tt, w')
  /\ Native.onStatus E i mt v w = (Ret tt, w').
Proof.
  intros Hi H1 H2 H3 H4. simpl. unfold diagnostic. split.
  - unfold Browser.onStatus. rewrite bind_emit, bind_registry_get. simpl.
    rewrite Hi, H1, H2, H3, H4. unfold console_error_if_present.
    destruct (console_error E); unfold emit, ret; by rewrite ?log_log.
  - unfold Native.onStatus. rewrite bind_emit, bind_registry_get. simpl.
    rewrite Hi, H1, H2, H3, H4. unfold console_error_if_present.
    destruct (console_error E); unfold emit, ret; by rewrite ?log_log.
Qed.

Lemma unhandled_kind_logged_witness :
  Browser.onStatus quiet "u" (JStr "1") (JNum 4) (browser_world quiet)
  = (Ret tt, log [EvStatus "u" (JStr "1") (JNum 4);
                  EvConsoleError "Unhandled MediaRec.onStatus :: " (JStr "1")]
               (browser_world quiet)).
Proof.
  exact (proj1 (unhandled_kind_logged quiet (browser_world quiet) "u" 0 (JStr "1")
                  (JNum 4) eq_refl eq_refl eq_refl eq_refl eq_refl)).
Defined.

(** X3. An error event for a registered identifier: the error callback of
    its handle, when there is one, is called once with the payload as it
    came; nothing else is called, no handle changes, and without an error
    callback the dispatch returns normally.  Both proxies. *)
Theorem error_event_callback E w i l m e :
  mediaObjects w !! i = Some l -> heap w !! l = Some m ->
  let w' := log (EvStatus i (JNum MEDIA_ERROR) e :: calls (errorCallback m) [e]) w in
  (exists r, Browser.onStatus E i (JNum MEDIA_ERROR) e w = (r, w')
             /\ (errorCallback m = None -> r = Ret tt))
  /\ (exists r, Native.onStatus E i (JNum MEDIA_ERROR) e w = (r, w')
                /\ (errorCallback m = None -> r = Ret tt)).
Proof.
  intros Hi Hl. simpl. split.
  - rewrite (browser_onStatus_error _ _ _ l m) by done.
    eexists. split; [done|]. by intros ->.
  - rewrite (native_onStatus_error _ _ _ l m) by done.
    eexists. split; [done|]. by intros ->.
Qed.

Lemma error_event_callback_witness :
  snd (Native.onStatus quiet "u" (JNum MEDIA_ERROR) (JObj [("code", JNum 3)])
         (native_world quiet))
  = log [EvStatus "u" (JNum MEDIA_ERROR) (JObj [("code", JNum 3)]);
         EvCall 11 [JObj [("code", JNum 3)]]] (native_world quiet).
Proof.
  destruct (proj2 (error_event_callback quiet (native_world quiet) "u" 0 native_handle
                     (JObj [("code", JNum 3)]) eq_refl eq_refl)) as (r & H & _).
  rewrite H. reflexivity.
Defined.

(** X4. A position event for a registered identifier: the cached position
    of its handle becomes [Number(value)], so a number is stored as it is,
    [null] as 0 and [undefined] as NaN; no callback is called and the
    dispatch returns.  Both proxies. *)
Theorem position_event_coerces E w i l m v :
  mediaObjects w !! i = Some l -> heap w !! l = Some m ->
  let stored := to_number (str_to_number E) v in
  let w' := store l (set_position stored m)
              (log [EvStatus i (JNum MEDIA_POSITION) v] w) in
  Browser.onStatus E i (JNum MEDIA_POSITION) v w = (Ret tt, w')
  /\ Native.onStatus E i (JNum MEDIA_POSITION) v w = (Ret tt, w')
  /\ (forall q, v = JNum q -> stored = JNum q)
  /\ (v = JNull -> stored = JNum 0)
  /\ (v = JUndefined -> stored = JNaN).
Proof.
  intros Hi Hl. simpl. split; [by apply browser_onStatus_position|].
  split; [by apply native_onStatus_position|].
  repeat split; by intros; subst.
Qed.

Lemma position_event_coerces_witness :
  Native.onStatus quiet "u" (JNum MEDIA_POSITION) JNull (native_world quiet)
  = (Ret tt, store 0 (set_position (JNum 0) native_handle)
               (log [EvStatus "u" (JNum MEDIA_POSITION) JNull] (native_world quiet))).
Proof.
  exact (proj1 (proj2 (position_event_coerces quiet (native_world quiet) "u" 0
                         native_handle JNull eq_refl eq_refl))).
Defined.

(** X5. A status event of any kind and value for the identifier [i] leaves
    the registry as it is and changes no handle but the one registered
    under [i].  Both proxies. *)
Theorem status_event_frame E w i mt v l' :
  mediaObjects w !! i <> Some l' ->
  (mediaObjects (snd (Browser.onStatus E i mt v w)) = mediaObjects w
   /\ heap (snd (Browser.onStatus E i mt v w)) !! l' = heap w !! l')
  /\ (mediaObjects (snd (Native.onStatus E i mt v w)) = mediaObjects w
      /\ heap (snd (Native.onStatus E i mt v w)) !! l' = heap w !! l').
Proof.
  intros Hne. split.
  - unfold Browser.onStatus. rewrite bind_emit, bind_registry_get. simpl.
    destruct (mediaObjects w !! i) as [l|] eqn:Hi.
    + assert (l <> l') by congruence.
      unfold bind, deref, update, call_if_present, console_error_if_present, call,
        emit, ret, store. simpl.
      repeat case_match; simplify_eq; simpl; split; try done;
        by rewrite lookup_insert_ne.
    + unfold console_error_if_present, emit, ret. by repeat case_match.
  - unfold Native.onStatus. rewrite bind_emit, bind_registry_get. simpl.
    destruct (mediaObjects w !! i) as [l|] eqn:Hi.
    + assert (l <> l') by congruence.
      unfold bind, deref, update, call_if_present, console_error_if_present, call,
        emit, ret, store. simpl.
      repeat case_match; simplify_eq; simpl; split; try done;
        by rewrite lookup_insert_ne.
    + unfold console_error_if_present, emit, ret. by repeat case_match.
Qed.

Lemma status_event_frame_witness :
  heap (snd (Browser.onStatus quiet "nobody" (JNum MEDIA_DURATION) (JNum 7)
               (browser_world quiet))) !! 0
  = heap (browser_world quiet) !! 0.
Proof.
  refine (proj2 (proj1 (status_event_frame quiet (browser_world quiet) "nobody"
                          (JNum MEDIA_DURATION) (JNum 7) 0 _))).
  intros H. discriminate H.
Defined.

(** ** More on construction *)

(** X6. When the argument check throws, the constructor throws the same
    error and the world is as before: no identifier was generated, nothing
    was registered and nothing was emitted.  Both proxies. *)
Theorem rejected_arguments_change_nothing E src0 s e st w x :
  (checkArgs E "SFFF" src0 = Some x ->
   Browser.new_MediaRec E src0 s e st w = (Throw x, w))
  /\ (checkArgs E "sFFF" src0 = Some x ->
      Native.new_MediaRec E src0 s e st w = (Throw x, w)).
Proof.
  split; intros H.
  - unfold Browser.new_MediaRec, check_args, bind. by rewrite H.
  - unfold Native.new_MediaRec, check_args, bind. by rewrite H.
Qed.

Lemma rejected_arguments_change_nothing_witness :
  Native.new_MediaRec strict_check (JNum 5) None None None (native_world quiet)
  = (Throw (TypeError "Wrong type for parameter"), native_world quiet).
Proof.
  exact (proj2 (rejected_arguments_change_nothing strict_check (JNum 5) None None None
                  (native_world quiet) (TypeError "Wrong type for parameter")) eq_refl).
Defined.

Lemma new_Audio_run E w :
  new_Audio E w
  = (match Audio_new E (trace w) with
     | None => Ret (nodes w)
     | Some x => Throw x
     end, audio_requested w).
Proof. unfold new_Audio. by destruct (Audio_new E (trace w)). Qed.

Lemma createNode_run E w media m :
  heap w !! media = Some m ->
  let n := nodes w in
  let answer := audio E (trace w ++ [EvAudioNew n]) n (OpSetSrc (src m)) in
  Browser.createNode E media w
  = (match Audio_new E (trace w) with
     | Some x => Throw x
     | None => if truthy (src m) then
                 match answer with
                 | Returns _ => Ret n
                 | Throws x => Throw x
                 end
               else Ret n
     end,
     match Audio_new E (trace w) with
     | Some _ => audio_requested w
     | None => if truthy (src m)
               then log [EvNode n (OpSetSrc (src m))] (audio_requested w)
               else audio_requested w
     end).
Proof.
  intros Hl. simpl. unfold Browser.createNode, bind. rewrite new_Audio_run.
  destruct (Audio_new E (trace w)); [done|].
  unfold deref. simpl. rewrite Hl.
  destruct (truthy (src m)); [|done].
  unfold node_do, ret. simpl.
  by destruct (audio E _ (nodes w) (OpSetSrc (src m))).
Qed.

(** What [try { this.node = createNode(this) } catch ...] does on a
    registered handle whose error callback never throws, case by case. *)
Lemma try_createNode_run E w this m :
  registered w this m -> never_throws E (errorCallback m) ->
  let n := nodes w in
  let set_src := EvNode n (OpSetSrc (src m)) in
  Browser.try_createNode E this w
  = (Ret tt,
     match Audio_new E (trace w) with
     | Some _ => log (error_events m (Browser.aborted E)) (audio_requested w)
     | None =>
         if truthy (src m) then
           match audio E (trace w ++ [EvAudioNew n]) n (OpSetSrc (src m)) with
           | Returns _ =>
               store this (set_node (Some n) m) (log [set_src] (audio_requested w))
           | Throws _ =>
               log (set_src :: error_events m (Browser.aborted E)) (audio_requested w)
           end
         else store this (set_node (Some n) m) (audio_requested w)
     end).
Proof.
  intros Hreg Hq. pose proof Hreg as [Hl Hi]. simpl.
  assert (Hreg' : registered (audio_requested w) this m) by done.
  unfold Browser.try_createNode, try_catch. unfold bind at 1.
  rewrite (createNode_run E w this m Hl). simpl.
  destruct (Audio_new E (trace w)) as [x|].
  { by rewrite (browser_report_error _ _ _ m _ Hreg' Hq). }
  destruct (truthy (src m)).
  - destruct (audio E _ (nodes w) (OpSetSrc (src m))) as [r|x].
    + unfold update. simpl. by rewrite Hl.
    + rewrite (browser_report_error _ _ _ m _ (registered_log _ _ _ _ Hreg') Hq).
      by rewrite log_log.
  - unfold update. simpl. by rewrite Hl.
Qed.

(** The standalone constructor, start to end, when its arguments pass the
    check and neither the status nor the error callback throws. *)
Lemma browser_new_MediaRec_quiet E src0 s e st w :
  checkArgs E "SFFF" src0 = None -> never_throws E st -> never_throws E e ->
  let uuid := createUUID E (uuids w) in
  let starting := EvStatus uuid (JNum MEDIA_STATE) (JNum MEDIA_STARTING)
                  :: calls st [JNum MEDIA_STARTING] in
  Browser.new_MediaRec E src0 s e st w
  = (Ret (next_loc w),
     snd (Browser.try_createNode E (next_loc w)
            (log starting (constructed E src0 s e st w)))).
Proof.
  intros Hc Hst He. simpl. rewrite browser_new_MediaRec_run by done.
  set (w1 := constructed E src0 s e st w).
  assert (Hreg : registered w1 (next_loc w)
                   (fresh_handle (createUUID E (uuids w)) src0 s e st)).
  { split; simpl; apply lookup_insert_eq. }
  unfold bind at 1.
  rewrite (browser_onStatus_state _ _ _ _ _ _ (proj2 Hreg) (proj1 Hreg)).
  simpl. rewrite call_outcome_never_throws by done. simpl.
  unfold bind, ret.
  rewrite (try_createNode_run E _ _ _ (registered_log _ _ _ _ Hreg) He). done.
Qed.

(** X7. The standalone constructor, when its arguments pass the check and
    its callbacks do not throw, never lets a failure of the element escape:
    whether [new Audio()] throws or the assignment of the source to the
    element does, the constructor returns the handle, the handle has no
    element, and after the Starting event the error callback receives
    [{ code: MEDIA_ERR_ABORTED }] and not what was thrown. *)
Theorem constructor_reports_element_failure E src0 s e st w x :
  checkArgs E "SFFF" src0 = None -> never_throws E st -> never_throws E e ->
  let uuid := createUUID E (uuids w) in
  let this := next_loc w in
  let n := nodes w in
  let m := fresh_handle uuid src0 s e st in
  let starting := EvStatus uuid (JNum MEDIA_STATE) (JNum MEDIA_STARTING)
                  :: calls st [JNum MEDIA_STARTING] in
  let r := Browser.new_MediaRec E src0 s e st w in
  (Audio_new E (trace w ++ starting) = Some x ->
   fst r = Ret this /\ heap (snd r) !! this = Some m /\ node m = None
   /\ trace (snd r)
      = trace w ++ starting ++ EvAudioNew n :: error_events m (Browser.aborted E))
  /\ (Audio_new E (trace w ++ starting) = None -> truthy src0 = true ->
      audio E (trace w ++ starting ++ [EvAudioNew n]) n (OpSetSrc src0) = Throws x ->
      fst r = Ret this /\ heap (snd r) !! this = Some m /\ node m = None
      /\ trace (snd r)
         = trace w ++ starting ++ EvAudioNew n :: EvNode n (OpSetSrc src0)
             :: error_events m (Browser.aborted E)).
Proof.
  intros Hc Hst He. simpl.
  rewrite (browser_new_MediaRec_quiet E src0 s e st w Hc Hst He).
  assert (Hreg : registered (constructed E src0 s e st w) (next_loc w)
                   (fresh_handle (createUUID E (uuids w)) src0 s e st)).
  { split; simpl; apply lookup_insert_eq. }
  rewrite (try_createNode_run E _ _ _ (registered_log _ _ _ _ Hreg) He).
  simpl. split.
  - intros Ha. rewrite Ha. simpl. repeat split; [apply lookup_insert_eq|].
    by rewrite <- !app_assoc.
  - intros Ha Ht Hs. rewrite Ha, Ht. rewrite <- app_assoc. simpl. rewrite Hs. simpl.
    repeat split; [apply lookup_insert_eq|]. by rewrite <- !app_assoc.
Qed.

Lemma constructor_reports_element_failure_witness :
  fst (Browser.new_MediaRec no_audio (JStr "a.mp3") (Some 10) (Some 11) (Some 12) world0)
  = Ret 0
  /\ trace (snd (Browser.new_MediaRec no_audio (JStr "a.mp3") (Some 10) (Some 11)
                   (Some 12) world0))
  = [EvStatus "u" (JNum MEDIA_STATE) (JNum MEDIA_STARTING);
     EvCall 12 [JNum MEDIA_STARTING];
     EvAudioNew 0;
     EvStatus "u" (JNum MEDIA_ERROR) (JObj [("code", JNum 1)]);
     EvCall 11 [JObj [("code", JNum 1)]]].
Proof.
  destruct (proj1 (constructor_reports_element_failure no_audio (JStr "a.mp3")
                     (Some 10) (Some 11) (Some 12) world0 (JStr "no Audio") eq_refl
                     (fun f t args _ => eq_refl) (fun f t args _ => eq_refl)) eq_refl)
    as (H1 & _ & _ & H2).
  exact (conj H1 H2).
Defined.

(** X8. The standalone constructor, when its arguments pass the check, its
    callbacks do not throw and [new Audio()] returns: the source is
    assigned to the element exactly when it is truthy (an empty string,
    [null] or [undefined] is not assigned), and the element becomes the
    [node] of the handle. *)
Theorem constructor_assigns_truthy_source E src0 s e st w :
  checkArgs E "SFFF" src0 = None -> never_throws E st -> never_throws E e ->
  let uuid := createUUID E (uuids w) in
  let this := next_loc w in
  let n := nodes w in
  let m := fresh_handle uuid src0 s e st in
  let starting := EvStatus uuid (JNum MEDIA_STATE) (JNum MEDIA_STARTING)
                  :: calls st [JNum MEDIA_STARTING] in
  let r := Browser.new_MediaRec E src0 s e st w in
  Audio_new E (trace w ++ starting) = None ->
  (truthy src0 = false ->
   fst r = Ret this /\ heap (snd r) !! this = Some (set_node (Some n) m)
   /\ trace (snd r) = trace w ++ starting ++ [EvAudioNew n])
  /\ (forall v, truthy src0 = true ->
      audio E (trace w ++ starting ++ [EvAudioNew n]) n (OpSetSrc src0) = Returns v ->
      fst r = Ret this /\ heap (snd r) !! this = Some (set_node (Some n) m)
      /\ trace (snd r) = trace w ++ starting ++ [EvAudioNew n; EvNode n (OpSetSrc src0)]).
Proof.
  intros Hc Hst He. simpl. intros Ha.
  rewrite (browser_new_MediaRec_quiet E src0 s e st w Hc Hst He).
  assert (Hreg : registered (constructed E src0 s e st w) (next_loc w)
                   (fresh_handle (createUUID E (uuids w)) src0 s e st)).
  { split; simpl; apply lookup_insert_eq. }
  rewrite (try_createNode_run E _ _ _ (registered_log _ _ _ _ Hreg) He).
  simpl. rewrite Ha. split.
  - intros Ht. rewrite Ht. simpl. repeat split; [apply lookup_insert_eq|].
    by rewrite <- !app_assoc.
  - intros v Ht Hs. rewrite Ht. rewrite <- app_assoc. simpl. rewrite Hs. simpl.
    repeat split; [apply lookup_insert_eq|]. by rewrite <- !app_assoc.
Qed.

Lemma constructor_assigns_truthy_source_witness :
  trace (snd (Browser.new_MediaRec quiet (JStr "") None None None world0))
  = [EvStatus "u" (JNum MEDIA_STATE) (JNum MEDIA_STARTING); EvAudioNew 0]
  /\ trace (snd (Browser.new_MediaRec quiet (JStr "a.mp3") None None None world0))
  = [EvStatus "u" (JNum MEDIA_STATE) (JNum MEDIA_STARTING); EvAudioNew 0;
     EvNode 0 (OpSetSrc (JStr "a.mp3"))].
Proof.
  split.
  - exact (proj2 (proj2 (proj1 (constructor_assigns_truthy_source quiet (JStr "")
             None None None world0 eq_refl (fun f t args H => eq_refl)
             (fun f t args H => eq_refl) eq_refl) eq_refl))).
  - exact (proj2 (proj2 (proj2 (constructor_assigns_truthy_source quiet (JStr "a.mp3")
             None None None world0 eq_refl (fun f t args H => eq_refl)
             (fun f t args H => eq_refl) eq_refl) JUndefined eq_refl eq_refl))).
Defined.

(** A status event that is neither a duration nor a position event leaves
    the heap as it is. *)
Lemma onStatus_heap_unless_stored E w i mt v :
  strict_eq_num mt MEDIA_DURATION = false ->
  strict_eq_num mt MEDIA_POSITION = false ->
  heap (snd (Browser.onStatus E i mt v w)) = heap w
  /\ heap (snd (Native.onStatus E i mt v w)) = heap w.
Proof.
  intros H2 H3. split.
  - unfold Browser.onStatus. rewrite bind_emit, bind_registry_get. simpl.
    rewrite H2, H3.
    unfold bind, deref, call_if_present, console_error_if_present, call, emit, ret.
    simpl. by repeat case_match; simplify_eq; simpl.
  - unfold Native.onStatus. rewrite bind_emit, bind_registry_get. simpl.
    rewrite H2, H3.
    unfold bind, deref, call_if_present, console_error_if_present, call, emit, ret.
    simpl. by repeat case_match; simplify_eq; simpl.
Qed.

(** X9. The dispatcher itself writes to a handle only for a duration or a
    position event: for a status event of any other kind (state, error or
    unrecognized) none of its own steps is a write, so every handle is
    after the dispatch as the dispatcher found it.  This is about the
    writes of the dispatcher, with callbacks that do not write to a handle
    themselves; what a callback of the host application does to a handle on
    its own is not part of the statement.  Both proxies. *)
Theorem only_duration_and_position_events_store E w i mt v :
  strict_eq_num mt MEDIA_DURATION = false ->
  strict_eq_num mt MEDIA_POSITION = false ->
  heap (snd (Browser.onStatus E i mt v w)) = heap w
  /\ heap (snd (Native.onStatus E i mt v w)) = heap w.
Proof. apply onStatus_heap_unless_stored. Qed.

Lemma only_duration_and_position_events_store_witness :
  heap (snd (Browser.onStatus quiet "u" (JNum MEDIA_STATE) (JNum MEDIA_STOPPED)
               (browser_world quiet)))
  = heap (browser_world quiet).
Proof.
  exact (proj1 (only_duration_and_position_events_store quiet (browser_world quiet) "u"
                  (JNum MEDIA_STATE) (JNum MEDIA_STOPPED) eq_refl eq_refl)).
Defined.

Lemma createNode_heap E media w :
  heap (snd (Browser.createNode E media w)) = heap w.
Proof.
  unfold Browser.createNode, bind, new_Audio, deref, node_do, ret. simpl.
  by repeat case_match; simplify_eq; simpl.
Qed.

(** [try { this.node = createNode(this) } catch ...] changes at most the
    [node] of its handle. *)
Lemma try_createNode_heap E this w :
  heap (snd (Browser.try_createNode E this w)) = heap w
  \/ exists m n, heap w !! this = Some m
                 /\ heap (snd (Browser.try_createNode E this w))
                    = <[this := set_node (Some n) m]> (heap w).
Proof.
  destruct (Browser.try_createNode E this w) as [r w'] eqn:Hrun. simpl.
  unfold Browser.try_createNode, try_catch in Hrun. unfold bind at 1 in Hrun.
  pose proof (createNode_heap E this w) as Hh.
  destruct (Browser.createNode E this w) as [[n|x] w1]; simpl in Hh.
  - unfold update in Hrun. destruct (heap w1 !! this) as [m|] eqn:Hl; simpl in Hrun.
    + simplify_eq. simpl. right. exists m, n. by rewrite <- Hh.
    + left. unfold Browser.onStatus_this, bind, deref in Hrun.
      rewrite Hl in Hrun. by simplify_eq.
  - left. unfold Browser.onStatus_this, bind, deref in Hrun.
    destruct (heap w1 !! this) as [m|]; simplify_eq; [|done].
    rewrite <- Hh.
    pose proof (proj1 (onStatus_heap_unless_stored E w1 (id m)
                         (JNum MEDIA_ERROR) (Browser.aborted E) eq_refl eq_refl)) as Hs.
    by rewrite Hrun in Hs.
Qed.

(** After its registration the standalone constructor changes no cached
    duration or position, and no handle but the new one. *)
Lemma browser_constructor_rest_caches E i (this : loc) w1 l m :
  heap w1 !! l = Some m ->
  exists m',
    heap (snd ((Browser.onStatus E i (JNum MEDIA_STATE) (JNum MEDIA_STARTING) ;;
               Browser.try_createNode E this ;; ret this) w1)) !! l = Some m'
    /\ _duration m' = _duration m /\ _position m' = _position m
    /\ (l <> this -> m' = m).
Proof.
  intros Hl. unfold bind at 1.
  pose proof (proj1 (onStatus_heap_unless_stored E w1 i
                       (JNum MEDIA_STATE) (JNum MEDIA_STARTING) eq_refl eq_refl))
    as Hh.
  destruct (Browser.onStatus E i (JNum MEDIA_STATE) (JNum MEDIA_STARTING) w1)
    as [[[]|x] w2]; simpl in Hh.
  - unfold bind.
    pose proof (try_createNode_heap E this w2) as Ht.
    destruct (Browser.try_createNode E this w2) as [[[]|x] w3];
      simpl in *; rewrite Hh in Ht;
      (destruct Ht as [Ht|(m0 & n & Hm0 & Ht)]; rewrite Ht;
       [by exists m
       |destruct (decide (this = l)) as [->|Hne];
        [rewrite lookup_insert_eq; eexists; split; [done|];
         assert (Heq : Some m0 = Some m) by (by rewrite <- Hm0, <- Hl);
         injection Heq as ->; by repeat split
        |rewrite lookup_insert_ne by done; by exists m]]).
  - simpl. rewrite Hh. by exists m.
Qed.

(** X10. Right after a construction whose arguments pass the check,
    [getDuration()] on the new handle returns -1: the constructor stores -1
    and none of its later steps (the Starting event, the creation of the
    element, the report of its failure) writes the cached duration, whether
    the callbacks and the element return or throw.  This is about the
    writes of the constructor, with callbacks that do not write to the
    handle themselves.  Both proxies. *)
Theorem getDuration_after_construction E src0 s e st w :
  (checkArgs E "SFFF" src0 = None ->
   let w' := snd (Browser.new_MediaRec E src0 s e st w) in
   Browser.getDuration (next_loc w) w' = (Ret (JNum (-1)), w'))
  /\ (checkArgs E "sFFF" src0 = None ->
      let w' := snd (Native.new_MediaRec E src0 s e st w) in
      Native.getDuration (next_loc w) w' = (Ret (JNum (-1)), w')).
Proof.
  split; intros Hc; simpl.
  - rewrite browser_new_MediaRec_run by done.
    destruct (browser_constructor_rest_caches E (createUUID E (uuids w)) (next_loc w)
                (constructed E src0 s e st w) (next_loc w)
                (fresh_handle (createUUID E (uuids w)) src0 s e st))
      as (m' & Hm' & Hd & _); [apply lookup_insert_eq|].
    unfold loc in *.
    match goal with H : heap (snd ?r) !! _ = _ |- _ => set (w' := snd r) in * end.
    unfold Browser.getDuration, bind, deref, ret. unfold loc in *.
    by rewrite Hm', Hd.
  - rewrite native_new_MediaRec_run by done. simpl.
    unfold Native.getDuration, bind, deref, ret. simpl.
    by rewrite lookup_insert_eq.
Qed.

Lemma getDuration_after_construction_witness :
  fst (Browser.getDuration 0 (browser_world failing_pause)) = Ret (JNum (-1))
  /\ fst (Native.getDuration 0 (native_world quiet)) = Ret (JNum (-1)).
Proof.
  split.
  - exact (f_equal fst (proj1 (getDuration_after_construction failing_pause
             (JStr "a.mp3") (Some 10) (Some 11) (Some 12) world0) eq_refl)).
  - exact (f_equal fst (proj2 (getDuration_after_construction quiet
             (JStr "a.mp3") (Some 10) (Some 11) (Some 12) world0) eq_refl)).
Defined.

(** X11. A construction whose arguments pass the check and whose generated
    identifier differs from [i] leaves the registry entry of [i] and the
    handle it points to exactly as they were; the location of the new
    object is one no handle occupies.  Both proxies. *)
Theorem construction_keeps_other_handles E src0 s e st w i l m :
  mediaObjects w !! i = Some l -> heap w !! l = Some m ->
  heap w !! next_loc w = None -> createUUID E (uuids w) <> i ->
  (checkArgs E "SFFF" src0 = None ->
   let w' := snd (Browser.new_MediaRec E src0 s e st w) in
   mediaObjects w' !! i = Some l /\ heap w' !! l = Some m)
  /\ (checkArgs E "sFFF" src0 = None ->
      let w' := snd (Native.new_MediaRec E src0 s e st w) in
      mediaObjects w' !! i = Some l /\ heap w' !! l = Some m).
Proof.
  intros Hi Hl Hfresh Hne. unfold loc in *.
  assert (Hll : next_loc w <> l) by (intros Heq; rewrite Heq in Hfresh; congruence).
  split; intros Hc; simpl.
  - rewrite browser_new_MediaRec_run by done.
    pose proof (steady_browser_constructor_rest E (createUUID E (uuids w))
                  (next_loc w) (constructed E src0 s e st w)) as (Hr & _ & _).
    destruct (browser_constructor_rest_caches E (createUUID E (uuids w)) (next_loc w)
                (constructed E src0 s e st w) l m)
      as (m' & Hm' & _ & _ & Hsame).
    { simpl. by rewrite lookup_insert_ne. }
    unfold loc in *. split.
    + rewrite Hr. simpl. by rewrite lookup_insert_ne.
    + rewrite Hm'. f_equal. apply Hsame. congruence.
  - rewrite native_new_MediaRec_run by done. simpl.
    by rewrite !lookup_insert_ne.
Qed.

Lemma construction_keeps_other_handles_witness :
  heap (snd (Browser.new_MediaRec quiet (JStr "b.mp3") None None None
               (browser_world quiet))) !! 0 = Some browser_handle
  /\ mediaObjects (snd (Native.new_MediaRec quiet (JStr "b.mp3") None None None
                          (native_world quiet))) !! "u" = Some 0.
Proof.
  assert (Hne : createUUID quiet 1 <> "u") by (intros H; discriminate H).
  split.
  - exact (proj2 (proj1 (construction_keeps_other_handles quiet (JStr "b.mp3")
             None None None (browser_world quiet) "u" 0 browser_handle
             eq_refl eq_refl eq_refl Hne) eq_refl)).
  - exact (proj1 (proj2 (construction_keeps_other_handles quiet (JStr "b.mp3")
             None None None (native_world quiet) "u" 0 native_handle
             eq_refl eq_refl eq_refl Hne) eq_refl)).
Defined.

(** X12. The constructor does not check that the generated identifier is
    new.  When it is already registered to another handle, that handle
    stays in the heap as it was but loses its registry entry to the new
    handle: a later state event for the identifier reaches the status
    callback given to the new construction.  Executor-backed proxy. *)
Theorem colliding_identifier_replaces_handle E src0 s e st w l m v :
  checkArgs E "sFFF" src0 = None ->
  mediaObjects w !! createUUID E (uuids w) = Some l -> heap w !! l = Some m ->
  l <> next_loc w ->
  let i := createUUID E (uuids w) in
  let w' := snd (Native.new_MediaRec E src0 s e st w) in
  mediaObjects w' !! i = Some (next_loc w)
  /\ heap w' !! l = Some m
  /\ exists t, trace (snd (Native.onStatus E i (JNum MEDIA_STATE) v w'))
               = trace w' ++ EvStatus i (JNum MEDIA_STATE) v :: calls st [v] ++ t.
Proof.
  intros Hc Hi Hl Hne. simpl. rewrite native_new_MediaRec_run by done.
  split; [simpl; apply lookup_insert_eq|].
  split; [simpl; by rewrite lookup_insert_ne|].
  apply (native_state_event_reaches E _ _ (next_loc w)
           (fresh_handle (createUUID E (uuids w)) src0 s e st));
    simpl; apply lookup_insert_eq.
Qed.

Lemma colliding_identifier_replaces_handle_witness :
  mediaObjects (snd (Native.new_MediaRec same_uuid (JStr "b.mp3") None None (Some 22)
                       (native_world same_uuid))) !! "u" = Some 1
  /\ heap (snd (Native.new_MediaRec same_uuid (JStr "b.mp3") None None (Some 22)
                  (native_world same_uuid))) !! 0 = Some native_handle.
Proof.
  assert (Hne : 0 <> next_loc (native_world same_uuid)) by (intros H; discriminate H).
  destruct (colliding_identifier_replaces_handle same_uuid (JStr "b.mp3") None None
              (Some 22) (native_world same_uuid) 0 native_handle (JNum 2)
              eq_refl eq_refl eq_refl Hne) as (H1 & H2 & _).
  exact (conj H1 H2).
Defined.

(** ** More on the standalone methods *)

(** X13. [play()] on a registered handle without an element (after
    [release()], or after a failed construction of the element), when
    [new Audio()] returns and the assignment of a truthy source does not
    throw: a new element is created, it gets the source when the source is
    truthy, it becomes the [node] of the handle, and [play()] is called on
    it; how [play()] ends is how [node.play()] ends. *)
Theorem play_recreates_element E w this m :
  registered w this m -> never_throws E (errorCallback m) -> node m = None ->
  Audio_new E (trace w) = None ->
  (forall x, truthy (src m) = true ->
     audio E (trace w ++ [EvAudioNew (nodes w)]) (nodes w) (OpSetSrc (src m))
     <> Throws x) ->
  let n := nodes w in
  let created := EvAudioNew n
                 :: (if truthy (src m) then [EvNode n (OpSetSrc (src m))] else []) in
  fst (Browser.play E this w)
  = match audio E (trace w ++ created) n OpPlay with
    | Returns _ => Ret JUndefined
    | Throws x => Throw x
    end
  /\ trace (snd (Browser.play E this w)) = trace w ++ created ++ [EvNode n OpPlay]
  /\ heap (snd (Browser.play E this w)) = <[this := set_node (Some n) m]> (heap w).
Proof.
  intros Hreg Hq Hn Ha Hs. pose proof Hreg as [Hl Hi]. simpl.
  set (sets := if truthy (src m)
               then [EvNode (nodes w) (OpSetSrc (src m))] else []).
  assert (Hplay : Browser.play E this w
                  = (match audio E (trace w ++ EvAudioNew (nodes w) :: sets)
                             (nodes w) OpPlay with
                     | Returns _ => Ret JUndefined
                     | Throws x => Throw x
                     end,
                     log [EvNode (nodes w) OpPlay]
                       (store this (set_node (Some (nodes w)) m)
                          (log sets (audio_requested w))))).
  { unfold Browser.play. rewrite (bind_deref _ _ _ m) by done. rewrite Hn.
    unfold bind at 1. rewrite (try_createNode_run E w this m Hreg Hq). simpl.
    rewrite Ha. subst sets.
    destruct (truthy (src m)) eqn:Ht.
    - destruct (audio E _ (nodes w) (OpSetSrc (src m))) as [r|x] eqn:Hsrc;
        [|by destruct (Hs x eq_refl)].
      unfold bind.
      rewrite (this_node_do_run E _ this (set_node (Some (nodes w)) m) (nodes w) OpPlay);
        [|simpl; apply lookup_insert_eq|done].
      simpl. rewrite <- app_assoc. simpl.
      by destruct (audio E _ (nodes w) OpPlay).
    - unfold bind.
      rewrite (this_node_do_run E _ this (set_node (Some (nodes w)) m) (nodes w) OpPlay);
        [|simpl; apply lookup_insert_eq|done].
      simpl. rewrite log_nil.
      by destruct (audio E _ (nodes w) OpPlay). }
  rewrite Hplay. simpl. repeat split. by rewrite <- !app_assoc.
Qed.

Lemma play_recreates_element_witness :
  trace (snd (Browser.play quiet 0 (snd (Browser.release quiet 0 (browser_world quiet)))))
  = trace (browser_world quiet)
    ++ [EvAudioNew 1; EvNode 1 (OpSetSrc (JStr "a.mp3")); EvNode 1 OpPlay].
Proof.
  refine (proj1 (proj2 (play_recreates_element quiet
            (snd (Browser.release quiet 0 (browser_world quiet))) 0
            (set_node None browser_handle) (conj eq_refl eq_refl)
            (fun f t args _ => eq_refl) eq_refl eq_refl _))).
  intros x _ H. discriminate H.
Defined.

(** X14. [play()] on a registered handle without an element, when
    [new Audio()] throws and the error callback does not: the error
    callback receives [{ code: MEDIA_ERR_ABORTED }], the handle stays
    without an element, and [play()] itself then raises the [TypeError] of
    calling [play] on the missing element. *)
Theorem play_without_element_raises E w this m x :
  registered w this m -> never_throws E (errorCallback m) -> node m = None ->
  Audio_new E (trace w) = Some x ->
  fst (Browser.play E this w) = Throw (TypeError "node")
  /\ trace (snd (Browser.play E this w))
     = trace w ++ EvAudioNew (nodes w) :: error_events m (Browser.aborted E)
  /\ heap (snd (Browser.play E this w)) = heap w.
Proof.
  intros Hreg Hq Hn Ha. pose proof Hreg as [Hl Hi].
  assert (Hplay : Browser.play E this w
                  = (Throw (TypeError "node"),
                     log (error_events m (Browser.aborted E)) (audio_requested w))).
  { unfold Browser.play. rewrite (bind_deref _ _ _ m) by done. rewrite Hn.
    unfold bind at 1. rewrite (try_createNode_run E w this m Hreg Hq). simpl.
    rewrite Ha. unfold bind.
    by rewrite (this_node_do_no_node E _ this m OpPlay). }
  rewrite Hplay. simpl. repeat split. by rewrite <- app_assoc.
Qed.

Lemma play_without_element_raises_witness :
  fst (Browser.play no_audio 0 (browser_world no_audio)) = Throw (TypeError "node").
Proof.
  exact (proj1 (play_without_element_raises no_audio (browser_world no_audio) 0
                  (set_node None browser_handle) (JStr "no Audio")
                  (conj eq_refl eq_refl) (fun f t args _ => eq_refl) eq_refl eq_refl)).
Defined.

(** X15. [play()] and [setVolume()] do not guard the element: with an
    element they perform one operation on it and end as it ends, an
    exception of the element escaping the method; nothing is dispatched
    and no callback is called.  Without an element [setVolume()] raises a
    [TypeError] and leaves the world as it was. *)
Theorem play_and_setVolume_unguarded E w this m volume :
  heap w !! this = Some m ->
  (forall n, node m = Some n ->
     Browser.play E this w
     = (match audio E (trace w) n OpPlay with
        | Returns _ => Ret JUndefined
        | Throws x => Throw x
        end, log [EvNode n OpPlay] w)
     /\ Browser.setVolume E this volume w
        = (match audio E (trace w) n (OpSetVolume volume) with
           | Returns _ => Ret JUndefined
           | Throws x => Throw x
           end, log [EvNode n (OpSetVolume volume)] w))
  /\ (node m = None ->
      Browser.setVolume E this volume w = (Throw (TypeError "node"), w)).
Proof.
  intros Hl. split.
  - intros n Hn. split.
    + unfold Browser.play. rewrite (bind_deref _ _ _ m) by done. rewrite Hn.
      unfold bind, ret. rewrite (this_node_do_run E w this m n OpPlay Hl Hn).
      by destruct (audio E (trace w) n OpPlay).
    + unfold Browser.setVolume, bind, ret.
      rewrite (this_node_do_run E w this m n _ Hl Hn).
      by destruct (audio E (trace w) n (OpSetVolume volume)).
  - intros Hn. unfold Browser.setVolume, bind.
    by rewrite (this_node_do_no_node E w this m _ Hl Hn).
Qed.

Lemma play_and_setVolume_unguarded_witness :
  Browser.setVolume quiet 0 (JNum 1)
    (snd (Browser.release quiet 0 (browser_world quiet)))
  = (Throw (TypeError "node"), snd (Browser.release quiet 0 (browser_world quiet))).
Proof.
  exact (proj2 (play_and_setVolume_unguarded quiet
                  (snd (Browser.release quiet 0 (browser_world quiet))) 0
                  (set_node None browser_handle) (JNum 1) eq_refl) eq_refl).
Defined.

(** X16. [pause()] on a registered handle with an element, when
    [node.pause()] returns and the status callback returns normally: it
    returns; the element is paused once; a Paused state event follows, so
    the status callback, when there is one, is called with Paused; the
    success callback is not called and no handle changes. *)
Theorem pause_announces_paused E w this m n v :
  registered w this m -> node m = Some n ->
  audio E (trace w) n OpPause = Returns v ->
  call_outcome E (trace w ++ [EvNode n OpPause;
                              EvStatus (id m) (JNum MEDIA_STATE) (JNum MEDIA_PAUSED)])
    (statusCallback m) [JNum MEDIA_PAUSED] = Ret tt ->
  Browser.pause E this w
  = (Ret JUndefined,
     log (EvNode n OpPause :: EvStatus (id m) (JNum MEDIA_STATE) (JNum MEDIA_PAUSED)
          :: calls (statusCallback m) [JNum MEDIA_PAUSED]) w).
Proof.
  intros [Hl Hi] Hn Ha Hs. unfold Browser.pause.
  pose proof (this_node_do_run E w this m n OpPause Hl Hn) as Hrun.
  rewrite Ha in Hrun. rewrite (try_catch_bind_ret _ _ _ _ _ _ Hrun).
  unfold try_catch, bind.
  rewrite (browser_onStatus_this _ _ _ m) by done.
  rewrite (browser_onStatus_state _ _ _ this m) by done.
  simpl. rewrite <- app_assoc. simpl. rewrite Hs. simpl.
  by rewrite log_log.
Qed.

Lemma pause_announces_paused_witness :
  Browser.pause quiet 0 (browser_world quiet)
  = (Ret JUndefined,
     log [EvNode 0 OpPause; EvStatus "u" (JNum MEDIA_STATE) (JNum MEDIA_PAUSED);
          EvCall 12 [JNum MEDIA_PAUSED]] (browser_world quiet)).
Proof.
  exact (pause_announces_paused quiet (browser_world quiet) 0 browser_handle 0
           JUndefined (conj eq_refl eq_refl) eq_refl eq_refl eq_refl).
Defined.

(** A whole number is its own reduced fraction. *)
Lemma Qred_inject_Z k : Qred (inject_Z k) = inject_Z k.
Proof.
  unfold Qred, inject_Z.
  pose proof (Z.ggcd_gcd k 1) as Hg.
  pose proof (Z.ggcd_correct_divisors k 1) as Hd.
  destruct (Z.ggcd k 1) as [g [aa bb]]. simpl in *.
  rewrite Z.gcd_1_r in Hg. subst g. destruct Hd as [Ha Hb].
  replace aa with k by lia. replace bb with 1%Z by lia. reflexivity.
Qed.

(** X17. [seekTo(ms)] of the standalone proxy on a registered handle with
    an element, whose error callback never throws: it returns; it assigns
    one value to [node.currentTime] and does nothing else on the element;
    when the assignment returns nothing follows, and in particular the
    cached position stays as it was; when the assignment throws, the
    exception is reported by an error status event.  For a whole number of
    seconds, [ms = 1000 * k] within the range of the exact integers, the
    value assigned is [k]. *)
Theorem seekTo_assigns_seconds E w this m n ms :
  registered w this m -> node m = Some n -> never_throws E (errorCallback m) ->
  exists seconds,
    Browser.seekTo E this ms w
    = (Ret JUndefined,
       log (EvNode n (OpSetCurrentTime seconds)
            :: match audio E (trace w) n (OpSetCurrentTime seconds) with
               | Returns _ => []
               | Throws x => error_events m x
               end) w)
    /\ (forall k : Z,
          (Z.abs (1000 * k) <= 2 ^ 53)%Z -> ms = JNum (inject_Z (1000 * k)) ->
          seconds = JNum (inject_Z k)).
Proof.
  intros Hreg Hn Hq. pose proof Hreg as [Hl Hi].
  exists (div1000 (str_to_number E) ms). split.
  - pose proof (this_node_do_run E w this m n
                  (OpSetCurrentTime (div1000 (str_to_number E) ms)) Hl Hn) as Hrun.
    unfold Browser.seekTo.
    destruct (audio E (trace w) n (OpSetCurrentTime (div1000 (str_to_number E) ms)))
      as [v|x].
    + by rewrite (try_catch_bind_ret _ _ _ _ _ _ Hrun).
    + rewrite (try_catch_bind_throw _ _ _ _ _ _ Hrun). unfold bind.
      rewrite (browser_report_error _ _ _ m x (registered_log _ _ _ _ Hreg) Hq).
      by rewrite log_log.
  - intros k _ ->. unfold div1000. simpl. f_equal.
    rewrite (Qred_complete _ (inject_Z k)).
    + apply Qred_inject_Z.
    + unfold Qeq, Qdiv, Qmult, Qinv, inject_Z. simpl. lia.
Qed.

Lemma seekTo_assigns_seconds_witness :
  exists seconds,
    Browser.seekTo quiet 0 (JNum 3000) (browser_world quiet)
    = (Ret JUndefined, log [EvNode 0 (OpSetCurrentTime seconds)] (browser_world quiet))
    /\ seconds = JNum 3.
Proof.
  destruct (seekTo_assigns_seconds quiet (browser_world quiet) 0 browser_handle 0
              (JNum 3000) (conj eq_refl eq_refl) eq_refl (fun f t args H => eq_refl))
    as (seconds & Hrun & Hk).
  exists seconds. split; [exact Hrun|].
  apply (Hk 3%Z); [vm_compute; discriminate | reflexivity].
Defined.

(** ** More on the executor-backed methods *)

(** X18. Every method of the executor-backed proxy other than
    [getDuration], called on an existing handle: it returns [undefined],
    changes no handle and no registry entry, calls no callback, and hands
    exactly one request to the executor, whose first argument is the
    identifier of the handle. *)
Theorem native_methods_forward_one_request E w this m name mt :
  heap w !! this = Some m ->
  Native.prototype E name = Some mt -> name <> "getDuration" ->
  match mt with
  | Method0 body => forwards_one_request (body this) w m
  | Method1 body => forall v, forwards_one_request (body this v) w m
  | MethodCb body =>
      forall success fail, forwards_one_request (body this success fail) w m
  end.
Proof.
  intros Hl Hp Hne. apply String.eqb_neq in Hne.
  unfold Native.prototype in Hp. rewrite Hne in Hp.
  repeat case_match; simplify_eq;
    intros; unfold forwards_one_request,
      Native.play, Native.stop, Native.pause, Native.seekTo,
      Native.getCurrentPosition, Native.startRecord,
      Native.startRecordWithCompression, Native.stopRecord, Native.pauseRecord,
      Native.resumeRecord, Native.getRecordLevels_android,
      Native.getRecordLevels_ios, Native.release, Native.setVolume;
    do 4 eexists; rewrite (bind_deref _ _ _ m) by done;
    unfold bind, exec, emit, ret; reflexivity.
Qed.

Lemma native_methods_forward_one_request_witness :
  forwards_one_request (Native.startRecordWithCompression 0 (JObj []))
    (native_world quiet) native_handle.
Proof.
  exact (native_methods_forward_one_request quiet (native_world quiet) 0 native_handle
           "startRecordWithCompression" (Method1 Native.startRecordWithCompression)
           eq_refl eq_refl (fun H => ltac:(discriminate H)) (JObj [])).
Defined.

Lemma native_resolve_callback E cb e w :
  Native.resolve E (kont_of cb) e w
  = (call_outcome E (trace w) cb [e], log (calls cb [e]) w).
Proof.
  destruct cb as [f|]; simpl; [|by rewrite log_nil].
  unfold call. by destruct (call_fn E (trace w) f [e]).
Qed.

(** X19. [stop], [seekTo], [pause], the five recording methods and
    [release] of the executor-backed proxy hand the error callback the
    handle has at the time of the call to the executor as the failure
    callback of their request.  When the executor reports a failure [e]
    through it, the error callback, when there is one, is called once with
    [e] and no handle changes; when there is none, nothing happens. *)
Theorem native_failures_reach_error_callback E w this m name v :
  heap w !! this = Some m -> In name reports_to_errorCallback ->
  (exists win action args,
     invoke1 (Native.prototype E) this name v w
     = (Ret JUndefined,
        log [EvExec win (kont_of (errorCallback m)) action args] w))
  /\ (forall e w',
      Native.resolve E (kont_of (errorCallback m)) e w'
      = (call_outcome E (trace w') (errorCallback m) [e],
         log (calls (errorCallback m) [e]) w')).
Proof.
  intros Hl Hin. split; [|intros; apply native_resolve_callback].
  unfold reports_to_errorCallback in Hin. simpl in Hin.
  repeat (destruct Hin as [<-|Hin]; [
    unfold invoke1; simpl;
    unfold Native.stop, Native.pause, Native.seekTo, Native.startRecord,
      Native.startRecordWithCompression, Native.stopRecord, Native.pauseRecord,
      Native.resumeRecord, Native.release;
    do 3 eexists; rewrite (bind_deref _ _ _ m) by done;
    unfold bind, exec, emit, ret; reflexivity |]).
  destruct Hin.
Qed.

Lemma native_failures_reach_error_callback_witness :
  Native.resolve quiet (kont_of (errorCallback native_handle)) (JNum 3)
    (snd (Native.pauseRecord 0 (native_world quiet)))
  = (Ret tt, log [EvCall 11 [JNum 3]] (snd (Native.pauseRecord 0 (native_world quiet)))).
Proof.
  exact (proj2 (native_failures_reach_error_callback quiet (native_world quiet) 0
                  native_handle "pauseRecord" JUndefined eq_refl
                  (or_intror (or_intror (or_intror (or_intror (or_intror (or_intror
                     (or_introl eq_refl))))))))
           (JNum 3) (snd (Native.pauseRecord 0 (native_world quiet)))).
Defined.

(** X20. [play] and [setVolume] of the executor-backed proxy are fire and
    forget: their request carries no success and no failure callback, so
    whatever the executor answers, no callback is called and no handle
    changes. *)
Theorem native_play_and_setVolume_fire_and_forget E w this m v :
  heap w !! this = Some m ->
  Native.play this v w
  = (Ret JUndefined,
     log [EvExec KNull KNull "startPlayingAudio" [JStr (id m); src m; v]] w)
  /\ Native.setVolume this v w
     = (Ret JUndefined, log [EvExec KNull KNull "setVolume" [JStr (id m); v]] w)
  /\ (forall answer w', Native.resolve E KNull answer w' = (Ret tt, w')).
Proof.
  intros Hl. unfold Native.play, Native.setVolume.
  rewrite !(bind_deref _ _ _ m) by done. by repeat split.
Qed.

Lemma native_play_and_setVolume_fire_and_forget_witness :
  Native.play 0 JUndefined (native_world quiet)
  = (Ret JUndefined,
     log [EvExec KNull KNull "startPlayingAudio" [JStr "u"; JStr "a.mp3"; JUndefined]]
       (native_world quiet)).
Proof.
  exact (proj1 (native_play_and_setVolume_fire_and_forget quiet (native_world quiet) 0
                  native_handle JUndefined eq_refl)).
Defined.

(** X21. [stop] and [seekTo] of the executor-backed proxy change no cached
    position when they are called.  When the executor answers a stop
    request, the cached position becomes 0 whatever the answer is; when it
    answers a seek request with [p], the cached position becomes [p] as it
    came, not [Number(p)]; no callback is called in either case. *)
Theorem native_stop_and_seek_answers E w this m :
  heap w !! this = Some m ->
  Native.stop this w
  = (Ret JUndefined,
     log [EvExec (KStopWin this) (kont_of (errorCallback m)) "stopPlayingAudio"
            [JStr (id m)]] w)
  /\ (forall ms,
      Native.seekTo this ms w
      = (Ret JUndefined,
         log [EvExec (KSeekWin this) (kont_of (errorCallback m)) "seekToAudio"
                [JStr (id m); ms]] w))
  /\ (forall p w' m', heap w' !! this = Some m' ->
      Native.resolve E (KStopWin this) p w'
      = (Ret tt, store this (set_position (JNum 0) m') w')
      /\ Native.resolve E (KSeekWin this) p w'
         = (Ret tt, store this (set_position p m') w')).
Proof.
  intros Hl. unfold Native.stop, Native.seekTo.
  split; [by rewrite (bind_deref _ _ _ m)|].
  split; [intros; by rewrite (bind_deref _ _ _ m)|].
  intros p w' m' Hl'. unfold Native.resolve, update. by rewrite Hl'.
Qed.

Lemma native_stop_and_seek_answers_witness :
  Native.resolve quiet (KSeekWin 0) (JStr "1500") (native_world quiet)
  = (Ret tt, store 0 (set_position (JStr "1500") native_handle) (native_world quiet)).
Proof.
  exact (proj2 (proj2 (proj2 (native_stop_and_seek_answers quiet (native_world quiet) 0
                  native_handle eq_refl)) (JStr "1500") (native_world quiet)
                  native_handle eq_refl)).
Defined.

(** X22. [getRecordLevels] depends on the platform.  On Android it sends
    [getRecordDbLevel], and the answer is stored in [_db] before [success]
    is called with it; on iOS it sends [getAudioRecordingLevels] with the
    two callbacks of the caller themselves, and an answer changes no
    handle; on any other platform the method does not exist and calling it
    raises a [TypeError]. *)
Theorem getRecordLevels_by_platform E w this m success fail :
  heap w !! this = Some m ->
  (platformId E = "android" ->
   Native.prototype E "getRecordLevels" = Some (MethodCb Native.getRecordLevels_android)
   /\ Native.getRecordLevels_android this (Some success) fail w
      = (Ret JUndefined,
         log [EvExec (KDbWin this (Some success)) (kont_of fail) "getRecordDbLevel"
                [JStr (id m)]] w)
   /\ (forall p, snd (Native.resolve E (KDbWin this (Some success)) p w)
                 = log [EvCall success [p]] (store this (set_db p m) w)))
  /\ (platformId E = "ios" ->
      Native.prototype E "getRecordLevels" = Some (MethodCb Native.getRecordLevels_ios)
      /\ Native.getRecordLevels_ios this (Some success) fail w
         = (Ret JUndefined,
            log [EvExec (KFn success) (kont_of fail) "getAudioRecordingLevels"
                   [JStr (id m)]] w)
      /\ (forall p, snd (Native.resolve E (KFn success) p w)
                    = log [EvCall success [p]] w))
  /\ (platformId E <> "android" -> platformId E <> "ios" ->
      invoke0 (Native.prototype E) this "getRecordLevels" w
      = (Throw (TypeError "getRecordLevels"), w)).
Proof.
  intros Hl. split; [|split].
  - intros Hp. unfold Native.prototype. simpl. rewrite Hp. simpl.
    split; [done|]. split.
    + unfold Native.getRecordLevels_android. by rewrite (bind_deref _ _ _ m).
    + intros p. unfold Native.resolve. rewrite (bind_update _ _ _ _ m) by done.
      unfold call_param, call. by destruct (call_fn E _ success [p]).
  - intros Hp. unfold Native.prototype. simpl. rewrite Hp. simpl.
    split; [done|]. split.
    + unfold Native.getRecordLevels_ios. by rewrite (bind_deref _ _ _ m).
    + intros p. unfold Native.resolve, call. by destruct (call_fn E _ success [p]).
  - intros Ha Hi. apply String.eqb_neq in Ha, Hi.
    unfold invoke0, Native.prototype. simpl. by rewrite Ha, Hi.
Qed.

Lemma getRecordLevels_by_platform_witness :
  snd (Native.resolve android (KDbWin 0 (Some 20)) (JNum (-30)) (native_world android))
  = log [EvCall 20 [JNum (-30)]]
      (store 0 (set_db (JNum (-30)) native_handle) (native_world android))
  /\ Native.prototype ios "getRecordLevels" = Some (MethodCb Native.getRecordLevels_ios)
  /\ invoke0 (Native.prototype quiet) 0 "getRecordLevels" (native_world quiet)
     = (Throw (TypeError "getRecordLevels"), native_world quiet).
Proof.
  split; [|split].
  - exact (proj2 (proj2 (proj1 (getRecordLevels_by_platform android
             (native_world android) 0 native_handle 20 None eq_refl) eq_refl))
             (JNum (-30))).
  - exact (proj1 (proj1 (proj2 (getRecordLevels_by_platform ios
             (native_world ios) 0 native_handle 20 None eq_refl)) eq_refl)).
  - refine (proj2 (proj2 (getRecordLevels_by_platform quiet
             (native_world quiet) 0 native_handle 20 None eq_refl)) _ _);
      intros H; discriminate H.
Defined.

(** X23. The executor-backed constructor, when its arguments pass the
    check: it returns the new handle, calls no callback, and hands the
    executor exactly one request, [create] with the identifier and the
    source, whose failure callback is the error callback given to the
    constructor. *)
Theorem native_constructor_sends_create E src0 s e st w :
  checkArgs E "sFFF" src0 = None ->
  Native.new_MediaRec E src0 s e st w
  = (Ret (next_loc w),
     log [EvExec KNull (kont_of e) "create" [JStr (createUUID E (uuids w)); src0]]
       (constructed E src0 s e st w))
  /\ trace (constructed E src0 s e st w) = trace w.
Proof. intros Hc. split; [by apply native_new_MediaRec_run|done]. Qed.

Lemma native_constructor_sends_create_witness :
  trace (native_world quiet)
  = [EvExec KNull (KFn 11) "create" [JStr "u"; JStr "a.mp3"]].
Proof.
  exact (f_equal (fun r => trace (snd r))
           (proj1 (native_constructor_sends_create quiet (JStr "a.mp3") (Some 10)
                     (Some 11) (Some 12) world0 eq_refl))).
Defined.

(** ** More on routing *)

(** X24. No method of either proxy, no answer of the executor, no pushed
    message and no event of the element ever removes or redirects a
    registry entry, removes a handle, or changes the identifier, the source
    or a callback of a handle; the trace only grows. *)
Theorem operations_keep_registry E name mt k p msg media duration error :
  (Browser.prototype E name = Some mt \/ Native.prototype E name = Some mt ->
   steady_method mt)
  /\ steady (Native.resolve E k p)
  /\ steady (Native.onMessageFromNative E msg)
  /\ steady (Browser.node_onloadstart E media)
  /\ steady (Browser.node_onplaying E media)
  /\ steady (Browser.node_ondurationchange E media duration)
  /\ steady (Browser.node_onerror E media error)
  /\ steady (Browser.node_onended E media).
Proof.
  split.
  { intros [H|H]; [by eapply browser_methods_steady|by eapply native_methods_steady]. }
  split; [apply native_resolve_steady|].
  split; [apply native_onMessageFromNative_steady|].
  apply browser_node_events_steady.
Qed.

Lemma operations_keep_registry_witness :
  evolves (browser_world quiet) (snd (Browser.stop quiet 0 (browser_world quiet))).
Proof.
  exact (proj1 (operations_keep_registry quiet "stop" (Method0 (Browser.stop quiet))
                  KNull JUndefined (mkMessage JUndefined None) 0 JUndefined JUndefined)
           (or_introl eq_refl) 0 (browser_world quiet)).
Defined.

(** X25. A pushed [status] message for an identifier the registry does not
    hold, when no earlier event for [__proto__] stored a property of that
    name on [Object.prototype]: the handler returns normally and changes no
    handle and no registry entry.  When the identifier names no member
    inherited from [Object.prototype] the message is dropped with the
    diagnostic for an unknown media; when it names one, the dispatcher
    takes the branch of a found handle on that member instead. *)
Theorem status_message_for_unknown_id E w msg st :
  action msg = JStr "status" -> status msg = Some st ->
  mediaObjects w !! st_id st = None ->
  stored_on_Object_prototype (trace w) (st_id st) = false ->
  let entry := EvStatus (st_id st) (st_msgType st) (st_value st) in
  let w' :=
    log (entry ::
         if inherited_name (st_id st)
         then on_inherited E (st_id st) (st_msgType st) (st_value st)
         else diagnostic E "Received MediaRec.onStatus callback for unknown media :: "
                (JStr (st_id st))) w in
  Native.onMessageFromNative E msg w = (Ret tt, w')
  /\ heap w' = heap w /\ mediaObjects w' = mediaObjects w.
Proof.
  intros Ha Hs Hi _. unfold Native.onMessageFromNative. rewrite Ha, Hs. simpl.
  destruct (inherited_name (st_id st)) eqn:Hn.
  - by rewrite native_onStatus_inherited.
  - by rewrite native_onStatus_unknown.
Qed.

Lemma status_message_for_unknown_id_witness :
  Native.onMessageFromNative quiet
    (mkMessage (JStr "status") (Some (mkStatus "gone" (JNum MEDIA_STATE) (JNum 4))))
    (native_world quiet)
  = (Ret tt,
     log [EvStatus "gone" (JNum MEDIA_STATE) (JNum 4);
          EvConsoleError "Received MediaRec.onStatus callback for unknown media :: "
            (JStr "gone")] (native_world quiet))
  /\ Native.onMessageFromNative quiet
       (mkMessage (JStr "status")
          (Some (mkStatus "toString" (JNum MEDIA_POSITION) (JNum 4))))
       (native_world quiet)
  = (Ret tt,
     log [EvStatus "toString" (JNum MEDIA_POSITION) (JNum 4);
          EvStoreInherited "toString" "_position" (JNum 4)] (native_world quiet)).
Proof.
  split.
  - exact (proj1 (status_message_for_unknown_id quiet (native_world quiet)
             (mkMessage (JStr "status") (Some (mkStatus "gone" (JNum MEDIA_STATE) (JNum 4))))
             (mkStatus "gone" (JNum MEDIA_STATE) (JNum 4))
             eq_refl eq_refl eq_refl eq_refl)).
  - exact (proj1 (status_message_for_unknown_id quiet (native_world quiet)
             (mkMessage (JStr "status")
                (Some (mkStatus "toString" (JNum MEDIA_POSITION) (JNum 4))))
             (mkStatus "toString" (JNum MEDIA_POSITION) (JNum 4))
             eq_refl eq_refl eq_refl eq_refl)).
Defined.

(** X26. The two proxies compare a state value with Stopped differently.
    For a state event whose value is a string that reads as the number 4,
    on a registered handle whose status callback returns normally: the
    standalone proxy ([===]) calls the status callback only; the
    executor-backed proxy ([==]) goes on to call the success callback. *)
Theorem stopped_as_text E w i l m s :
  mediaObjects w !! i = Some l -> heap w !! l = Some m ->
  str_to_number E s = JNum 4 ->
  call_outcome E (trace w ++ [EvStatus i (JNum MEDIA_STATE) (JStr s)])
    (statusCallback m) [JStr s] = Ret tt ->
  let heard := EvStatus i (JNum MEDIA_STATE) (JStr s)
               :: calls (statusCallback m) [JStr s] in
  Browser.onStatus E i (JNum MEDIA_STATE) (JStr s) w = (Ret tt, log heard w)
  /\ snd (Native.onStatus E i (JNum MEDIA_STATE) (JStr s) w)
     = log (heard ++ calls (successCallback m) []) w.
Proof.
  intros Hi Hl Hs Hc. simpl. split.
  - rewrite (browser_onStatus_state _ _ _ l m) by done. by rewrite Hc.
  - rewrite (native_onStatus_state _ _ _ l m) by done. rewrite Hc.
    unfold loose_eq_num. simpl. by rewrite Hs.
Qed.

Lemma stopped_as_text_witness :
  Browser.onStatus reads_four "u" (JNum MEDIA_STATE) (JStr "4") (browser_world reads_four)
  = (Ret tt, log [EvStatus "u" (JNum MEDIA_STATE) (JStr "4"); EvCall 12 [JStr "4"]]
               (browser_world reads_four))
  /\ snd (Native.onStatus reads_four "u" (JNum MEDIA_STATE) (JStr "4")
            (native_world reads_four))
     = log [EvStatus "u" (JNum MEDIA_STATE) (JStr "4"); EvCall 12 [JStr "4"];
            EvCall 10 []] (native_world reads_four).
Proof.
  split.
  - exact (proj1 (stopped_as_text reads_four (browser_world reads_four) "u" 0
                    browser_handle "4" eq_refl eq_refl eq_refl eq_refl)).
  - exact (proj2 (stopped_as_text reads_four (native_world reads_four) "u" 0
                    native_handle "4" eq_refl eq_refl eq_refl eq_refl)).
Defined.

(** X27. [getCurrentPosition] of the standalone proxy called without a
    success callback, on a registered handle whose element answers the
    read with the number [q]: the position status event is emitted and [q]
    is cached all the same; then, the call of the missing callback raising
    a [TypeError], the failure callback is called with that error, and
    when it is missing too the [TypeError] of calling it escapes. *)
Theorem getCurrentPosition_without_success E w this m n q :
  registered w this m -> node m = Some n ->
  audio E (trace w) n OpGetCurrentTime = Returns (JNum q) ->
  let read := [EvNode n OpGetCurrentTime;
               EvStatus (id m) (JNum MEDIA_POSITION) (JNum q)] in
  let cached := store this (set_position (JNum q) m) w in
  (forall fail,
     snd (Browser.getCurrentPosition E this None (Some fail) w)
     = log (read ++ [EvCall fail [TypeError "call"]]) cached)
  /\ Browser.getCurrentPosition E this None None w
     = (Throw (TypeError "call"), log read cached).
Proof.
  intros [Hl Hi] Hn Ha. simpl.
  pose proof (this_node_do_run E w this m n OpGetCurrentTime Hl Hn) as Hrun.
  rewrite Ha in Hrun. split.
  - intros fail. unfold Browser.getCurrentPosition.
    rewrite (try_catch_bind_ret _ _ _ _ _ _ Hrun).
    unfold try_catch, bind.
    rewrite (browser_onStatus_this _ _ _ m) by done.
    rewrite (browser_onStatus_position _ _ _ this m) by done.
    simpl. unfold call. simpl.
    destruct (call_fn E _ fail [TypeError "call"]); unfold log, store; simpl;
      by rewrite <- !app_assoc.
  - unfold Browser.getCurrentPosition.
    rewrite (try_catch_bind_ret _ _ _ _ _ _ Hrun).
    unfold try_catch, bind.
    rewrite (browser_onStatus_this _ _ _ m) by done.
    rewrite (browser_onStatus_position _ _ _ this m) by done.
    simpl. unfold throw, log, store; simpl. by rewrite <- !app_assoc.
Qed.

Lemma getCurrentPosition_without_success_witness :
  Browser.getCurrentPosition at_4200 0 None None (browser_world at_4200)
  = (Throw (TypeError "call"),
     log [EvNode 0 OpGetCurrentTime; EvStatus "u" (JNum MEDIA_POSITION) (JNum 4200)]
       (store 0 (set_position (JNum 4200) browser_handle) (browser_world at_4200))).
Proof.
  exact (proj2 (getCurrentPosition_without_success at_4200 (browser_world at_4200) 0
                  browser_handle 0 4200%Q (conj eq_refl eq_refl) eq_refl eq_refl)).
Defined.

(** X28. When the element of a registered handle reports a change of
    duration, the cached duration becomes the duration of the element when
    that is truthy and -1 otherwise, so that NaN, 0 and [undefined] all
    make [getDuration()] return -1 afterwards. *)
Theorem durationchange_then_getDuration E w media m duration :
  registered w media m ->
  fst ((Browser.node_ondurationchange E media duration ;;
        Browser.getDuration media) w)
  = Ret (if truthy duration then duration else JNum (-1))
  /\ (duration = JNaN \/ duration = JNum 0 \/ duration = JUndefined ->
      fst ((Browser.node_ondurationchange E media duration ;;
            Browser.getDuration media) w) = Ret (JNum (-1))).
Proof.
  intros [Hl Hi].
  assert (H : fst ((Browser.node_ondurationchange E media duration ;;
                    Browser.getDuration media) w)
              = Ret (if truthy duration then duration else JNum (-1))).
  { unfold Browser.node_ondurationchange. unfold bind at 1.
    rewrite (browser_onStatus_this _ _ _ m) by done.
    rewrite (browser_onStatus_duration _ _ _ media m) by done.
    unfold Browser.getDuration, bind, deref, ret. simpl.
    by rewrite lookup_insert_eq. }
  split; [done|]. rewrite H. by intros [->|[->| ->]].
Qed.

Lemma durationchange_then_getDuration_witness :
  fst ((Browser.node_ondurationchange quiet 0 JNaN ;; Browser.getDuration 0)
         (browser_world quiet)) = Ret (JNum (-1))
  /\ fst ((Browser.node_ondurationchange quiet 0 (JNum 245) ;; Browser.getDuration 0)
            (browser_world quiet)) = Ret (JNum 245).
Proof.
  split.
  - exact (proj2 (durationchange_then_getDuration quiet (browser_world quiet) 0
                    browser_handle JNaN (conj eq_refl eq_refl)) (or_introl eq_refl)).
  - exact (proj1 (durationchange_then_getDuration quiet (browser_world quiet) 0
                    browser_handle (JNum 245) (conj eq_refl eq_refl))).
Defined.
